(** * BoardGame: the linear two-player board game of [game/BoardGame.py]

    A shallow embedding of the game core of [BoardGame.py] (the text codec
    [parse_game_file] / [write_game_file], [apply_events], [attempt_move],
    [switch_turn] and the [/roll], [/save], [/reset] handlers) together with
    the properties stated for it.

    Modelling conventions.
    - Python [int] is [Z]; Python [str] is [string].  The string built-ins
      ([strip], [lower], [capitalize], [split], [int], ...) are modelled on
      ASCII text: characters above 127 are treated as caseless, non-blank,
      non-digit characters.  [int] is modelled without CPython's optional
      limit on the number of digits.
    - The module-level dict [state] becomes the record [GameState], passed
      explicitly; the two fixed keys of [state["positions"]] become the two
      fields of [Positions], and the player names the type [Player].
    - [state["events"]] is a [gmap Z (list string)]: Python compares dicts
      regardless of insertion order, and [write_game_file] sorts the keys.
    - Exceptions are values of [result]; [try ... except Exception] is
      [try_except].
    - The game file is a [GameFile]: missing, present but failing in [open]
      or in the UTF-8 decoding of [readlines], or read as a text.  Where a
      property depends on how Python treats characters beyond ASCII
      ([capitalize], [strip]), it is stated for ASCII text. *)

From Stdlib Require Import ZArith Ascii String Lia.
From stdpp Require Import base option list gmap strings sorting.

Local Open Scope Z_scope.

(** ** Exceptions *)

Inductive exn := ValueError | IndexError | OSError | UnicodeDecodeError.

Inductive result (A : Type) :=
| Ok (a : A)
| Raise (e : exn).
Arguments Ok {A} a.
Arguments Raise {A} e.

Global Instance result_ret : MRet result := @Ok.

Global Instance result_bind : MBind result := λ A B k r,
  match r with
  | Ok a => k a
  | Raise e => Raise e
  end.

(** [try: r except Exception: d] *)
Definition try_except {A} (r : result A) (d : A) : A :=
  match r with
  | Ok a => a
  | Raise _ => d
  end.

(** ** The Python built-ins used by the program *)

Module Py.

(** [str.isspace] on one ASCII character: TAB, LF, VT, FF, CR, the four
    separators FS, GS, RS, US, and the space. *)
Definition is_space (c : ascii) : bool :=
  match c with
  | "009" | "010" | "011" | "012" | "013"
  | "028" | "029" | "030" | "031" | " " => true
  | _ => false
  end%char.

Definition is_upper (c : ascii) : bool :=
  let n := N_of_ascii c in ((65 <=? n) && (n <=? 90))%N.

Definition is_lower (c : ascii) : bool :=
  let n := N_of_ascii c in ((97 <=? n) && (n <=? 122))%N.

Definition lower_char (c : ascii) : ascii :=
  if is_upper c then ascii_of_N (N_of_ascii c + 32) else c.

Definition upper_char (c : ascii) : ascii :=
  if is_lower c then ascii_of_N (N_of_ascii c - 32) else c.

(** [s.lower()] *)
Fixpoint lower (s : string) : string :=
  match s with
  | "" => ""
  | String c s' => String (lower_char c) (lower s')
  end.

(** [s.capitalize()] *)
Definition capitalize (s : string) : string :=
  match s with
  | "" => ""
  | String c s' => String (upper_char c) (lower s')
  end.

(** [s.startswith(p)] *)
Fixpoint startswith (s p : string) {struct p} : bool :=
  match p, s with
  | "", _ => true
  | String a p', String b s' => bool_decide (a = b) && startswith s' p'
  | String _ _, "" => false
  end.

(** [c in s] for a one-character [c] *)
Fixpoint contains (c : ascii) (s : string) : bool :=
  match s with
  | "" => false
  | String a s' => bool_decide (a = c) || contains c s'
  end.

Fixpoint lstrip (s : string) : string :=
  match s with
  | "" => ""
  | String c s' => if is_space c then lstrip s' else s
  end.

Fixpoint rstrip (s : string) : string :=
  match s with
  | "" => ""
  | String c s' =>
      match rstrip s' with
      | "" => if is_space c then "" else String c ""
      | r => String c r
      end
  end.

(** [s.strip()] *)
Definition strip (s : string) : string := rstrip (lstrip s).

(** [s.split(sep)] for a one-character [sep]: never empty. *)
Fixpoint split (sep : ascii) (s : string) : list string :=
  match s with
  | "" => [""]
  | String c s' =>
      if bool_decide (c = sep) then "" :: split sep s'
      else match split sep s' with
           | [] => [String c ""]
           | h :: t => String c h :: t
           end
  end.

(** [s.split(sep, 1)]: cut at the first [sep], if there is one. *)
Fixpoint split1 (sep : ascii) (s : string) : list string :=
  match s with
  | "" => [""]
  | String c s' =>
      if bool_decide (c = sep) then [""; s']
      else match split1 sep s' with
           | [] => [String c ""]
           | h :: t => String c h :: t
           end
  end.

(** [l[i]] *)
Definition index {A} (l : list A) (i : nat) : result A :=
  match l !! i with
  | Some a => Ok a
  | None => Raise IndexError
  end.

(** [a, b = l] *)
Definition unpack2 {A} (l : list A) : result (A * A) :=
  match l with
  | [a; b] => Ok (a, b)
  | _ => Raise ValueError
  end.

(** [sep.join(l)] *)
Fixpoint join (sep : string) (l : list string) : string :=
  match l with
  | [] => ""
  | [s] => s
  | s :: l' => s +:+ sep +:+ join sep l'
  end.

Definition digit_val (c : ascii) : option Z :=
  let n := Z.of_N (N_of_ascii c) in
  if (48 <=? n) && (n <=? 57) then Some (n - 48) else None.

(** The digits after the first one; a single underscore may stand between
    two digits. *)
Fixpoint int_digits (acc : Z) (s : string) : option Z :=
  match s with
  | "" => Some acc
  | String c s' =>
      if bool_decide (c = "_"%char) then
        match s' with
        | String c' s'' =>
            match digit_val c' with
            | Some d => int_digits (10 * acc + d) s''
            | None => None
            end
        | "" => None
        end
      else
        match digit_val c with
        | Some d => int_digits (10 * acc + d) s'
        | None => None
        end
  end.

Definition int_magnitude (s : string) : option Z :=
  match s with
  | "" => None
  | String c s' =>
      match digit_val c with
      | Some d => int_digits d s'
      | None => None
      end
  end.

(** [int(s)] in base ten: blanks around, an optional sign, digits. *)
Definition int (s : string) : result Z :=
  let r :=
    match strip s with
    | "" => None
    | String c s' =>
        if bool_decide (c = "-"%char) then Z.opp <$> int_magnitude s'
        else if bool_decide (c = "+"%char) then int_magnitude s'
        else int_magnitude (String c s')
    end in
  match r with
  | Some z => Ok z
  | None => Raise ValueError
  end.

Definition digit_char (d : Z) : ascii := ascii_of_N (Z.to_N (48 + d)).

Fixpoint str_digits (fuel : nat) (n : Z) (acc : string) : string :=
  match fuel with
  | O => acc
  | S fuel' =>
      let acc' := String (digit_char (n mod 10)) acc in
      if n / 10 =? 0 then acc' else str_digits fuel' (n / 10) acc'
  end.

(** [str(n)], also [f"{n}"] *)
Definition str (n : Z) : string :=
  if n <? 0
  then String "-" (str_digits (S (Z.to_nat (Z.log2 (- n)))) (- n) "")
  else str_digits (S (Z.to_nat (Z.log2 n))) n "".

(** [f.readlines()] of a file opened in text mode: the lines keep their
    terminator, and [\r\n] and [\r] are read as [\n]. *)
Definition LF : ascii := "010"%char.
Definition CR : ascii := "013"%char.

Fixpoint readlines (s : string) : list string :=
  match s with
  | "" => []
  | String c s' =>
      if bool_decide (c = LF) then String LF "" :: readlines s'
      else if bool_decide (c = CR) then
        match s' with
        | String c' s'' =>
            if bool_decide (c' = LF) then String LF "" :: readlines s''
            else String LF "" :: readlines s'
        | "" => [String LF ""]
        end
      else match readlines s' with
           | [] => [String c ""]
           | l :: ls => String c l :: ls
           end
  end.

End Py.


(** ** The game state *)

Definition LAST_TILE : Z := 100.
Definition TREASURE_MOVE : Z := 10.
Definition PORTAL_MOVE : Z := -3.

Inductive Player := Player1 | Player2.

Global Instance Player_eq_dec : EqDecision Player.
Proof. solve_decision. Defined.

(** The key of a player in the dicts, and the text of [f"{st['turn']}"]. *)
Definition player_name (p : Player) : string :=
  match p with
  | Player1 => "Player1"
  | Player2 => "Player2"
  end.

(** [state["positions"]]: a dict with exactly the keys Player1 and Player2. *)
Record Positions := { player1 : Z; player2 : Z }.

Definition get_pos (ps : Positions) (p : Player) : Z :=
  match p with
  | Player1 => player1 ps
  | Player2 => player2 ps
  end.

Definition set_pos (ps : Positions) (p : Player) (v : Z) : Positions :=
  match p with
  | Player1 => {| player1 := v; player2 := player2 ps |}
  | Player2 => {| player1 := player1 ps; player2 := v |}
  end.

Record GameState := {
  turn : Player;
  positions : Positions;
  events : gmap Z (list string);
  winner : option Player
}.

Definition set_turn (s : GameState) (p : Player) : GameState :=
  {| turn := p; positions := positions s; events := events s;
     winner := winner s |}.

Definition set_position (s : GameState) (p : Player) (v : Z) : GameState :=
  {| turn := turn s; positions := set_pos (positions s) p v;
     events := events s; winner := winner s |}.

Definition set_events (s : GameState) (e : gmap Z (list string)) : GameState :=
  {| turn := turn s; positions := positions s; events := e;
     winner := winner s |}.

Definition set_winner (s : GameState) (w : option Player) : GameState :=
  {| turn := turn s; positions := positions s; events := events s;
     winner := w |}.

(** The literal that initialises [state] and [parsed]. *)
Definition default_state : GameState :=
  {| turn := Player1; positions := {| player1 := 0; player2 := 0 |};
     events := ∅; winner := None |}.

(** ** Moves *)

(** One round of the loop of [apply_events]. *)
Definition apply_event (acc : Z * list string) (ev : string)
  : Z * list string :=
  let '(pos, applied) := acc in
  let ev_lower := Py.lower ev in
  if bool_decide (ev_lower = "treasure") then
    (pos + TREASURE_MOVE, applied ++ ["Treasure"])
  else if bool_decide (ev_lower = "portal") then
    (pos + PORTAL_MOVE, applied ++ ["Portal"])
  else (pos, applied).

(** [apply_events(player_name)]: the new state and the pair returned. *)
Definition apply_events (s : GameState) (player : Player)
  : GameState * (list string * Z) :=
  let pos := get_pos (positions s) player in
  let evs := default [] (events s !! pos) in
  let '(pos, applied) := foldl apply_event (pos, []) evs in
  let pos := Z.max 0 (Z.min LAST_TILE pos) in
  let s := set_position s player pos in
  let s := if LAST_TILE <=? pos then set_winner s (Some player) else s in
  (s, (applied, pos)).

(** The dict returned by a move that took place. *)
Record MoveResult := {
  mr_player : Player;
  mr_rolled : Z;
  mr_start : Z;
  mr_moved_to : Z;
  mr_events : list string;
  mr_final : Z;
  mr_winner : option Player
}.

(** What [attempt_move] returns: the error dict or the move dict. *)
Inductive MoveOutcome :=
| GameAlreadyFinished (w : Player)
| Moved (r : MoveResult).

(** [attempt_move(player_name, steps)] *)
Definition attempt_move (s : GameState) (player : Player) (steps : Z)
  : GameState * MoveOutcome :=
  match winner s with
  | Some w => (s, GameAlreadyFinished w)
  | None =>
      let start := get_pos (positions s) player in
      let new_pos := start + steps in
      let new_pos := Z.min new_pos LAST_TILE in
      let s := set_position s player new_pos in
      if LAST_TILE <=? new_pos then
        let s := set_winner s (Some player) in
        (s, Moved {| mr_player := player; mr_rolled := steps;
                     mr_start := start; mr_moved_to := new_pos;
                     mr_events := []; mr_final := new_pos;
                     mr_winner := Some player |})
      else
        let '(s, (applied, final_pos)) := apply_events s player in
        (s, Moved {| mr_player := player; mr_rolled := steps;
                     mr_start := start; mr_moved_to := new_pos;
                     mr_events := applied; mr_final := final_pos;
                     mr_winner := winner s |})
  end.

(** [switch_turn()] *)
Definition switch_turn (s : GameState) : GameState :=
  set_turn s (if bool_decide (turn s = Player1) then Player2 else Player1).

(** ** The text format *)

(** The variable [mode] of [parse_game_file]: [None] or ["events"]. *)
Inductive Mode := NoMode | EventsMode.

Global Instance Mode_eq_dec : EqDecision Mode.
Proof. solve_decision. Defined.

(** [right if right in ("Player1", "Player2") else "Player1"] *)
Definition turn_of (right : string) : Player :=
  if bool_decide (right = "Player1") then Player1
  else if bool_decide (right = "Player2") then Player2
  else Player1.

(** [max(0, int(ln.split(":", 1)[1].strip()))], the body of the [try]. *)
Definition position_field (ln : string) : result Z :=
  right ← Py.index (Py.split1 ":" ln) 1;
  n ← Py.int (Py.strip right);
  Ok (Z.max 0 n).

(** [[e.strip().capitalize() for e in right.split(",") if e.strip()]] *)
Definition event_names (right : string) : list string :=
  (λ e, Py.capitalize (Py.strip e))
    <$> filter (λ e, Py.strip e ≠ "") (Py.split "," right).

(** [d.setdefault(tile, []).extend(evs)] *)
Definition extend_at (tile : Z) (evs : list string) (d : gmap Z (list string))
  : gmap Z (list string) :=
  <[tile := default [] (d !! tile) ++ evs]> d.

(** The body of the loop over the stripped lines; [continue] is a return of
    the unchanged or updated pair of [parsed] and [mode]. *)
Definition parse_line (acc : GameState * Mode) (ln : string)
  : result (GameState * Mode) :=
  let '(parsed, mode) := acc in
  if bool_decide (ln = "") || Py.startswith ln "#" then Ok acc
  else if Py.startswith (Py.lower ln) "turn:" then
    right ← Py.index (Py.split1 ":" ln) 1;
    Ok (set_turn parsed (turn_of (Py.strip right)), mode)
  else if Py.startswith (Py.lower ln) "player1:" then
    Ok (set_position parsed Player1 (try_except (position_field ln) 0), mode)
  else if Py.startswith (Py.lower ln) "player2:" then
    Ok (set_position parsed Player2 (try_except (position_field ln) 0), mode)
  else if Py.startswith (Py.lower ln) "events:" then
    Ok (parsed, EventsMode)
  else if bool_decide (mode = EventsMode) then
    if negb (Py.contains ":" ln) then Ok acc
    else
      '(lhs, rhs) ← Py.unpack2 (Py.split1 ":" ln);
      match Py.int (Py.strip lhs) with
      | Raise _ => Ok acc
      | Ok tile =>
          let evs := event_names rhs in
          if bool_decide (evs ≠ []) then
            Ok (set_events parsed (extend_at tile evs (events parsed)), mode)
          else Ok acc
      end
  else Ok acc.

Global Arguments parse_line : simpl never.

(** [for ln in lines: ...] *)
Fixpoint parse_lines (acc : GameState * Mode) (lines : list string)
  : result (GameState * Mode) :=
  match lines with
  | [] => Ok acc
  | ln :: lines' => acc' ← parse_line acc ln; parse_lines acc' lines'
  end.

(** The first loop over the players after the lines: clamp into the board. *)
Definition clamp_player (parsed : GameState) (p : Player) : GameState :=
  set_position parsed p
    (Z.max 0 (Z.min LAST_TILE (get_pos (positions parsed) p))).

(** The second loop over the players: whoever stands on the last tile wins. *)
Definition crown_player (parsed : GameState) (p : Player) : GameState :=
  if LAST_TILE <=? get_pos (positions parsed) p then
    set_position (set_winner parsed (Some p)) p LAST_TILE
  else parsed.

(** What [parse_game_file] finds at [path]: nothing ([os.path.exists] is
    false); a path that exists but on which [open] or the decoding in
    [readlines] raises [e] (a directory, no permission, bytes that are not
    UTF-8); or a file read as [text]. *)
Inductive GameFile :=
| Missing
| Unreadable (e : exn)
| Text (text : string).

(** [parse_game_file(path)]; the argument is what is found at [path].  The
    [open] and [readlines] calls are outside any [try], so their exception
    leaves the function. *)
Definition parse_game_file (file : GameFile) : result GameState :=
  match file with
  | Missing => Ok default_state
  | Unreadable e => Raise e
  | Text text =>
      let lines := Py.strip <$> Py.readlines text in
      '(parsed, _) ← parse_lines (default_state, NoMode) lines;
      let parsed := foldl clamp_player parsed [Player1; Player2] in
      let parsed := foldl crown_player parsed [Player1; Player2] in
      Ok parsed
  end.

(** [sorted(st["events"].keys())] *)
Definition sorted_tiles (d : gmap Z (list string)) : list Z :=
  merge_sort Z.le (fst <$> map_to_list d).

(** [f"{tile}: {events}"] with [events = ", ".join(st["events"][tile])] *)
Definition event_line (d : gmap Z (list string)) (tile : Z) : string :=
  Py.str tile +:+ ": " +:+ Py.join ", " (d !!! tile).

(** The text that [write_game_file(path, st)] writes to [path]. *)
Definition write_game_file (st : GameState) : string :=
  let lines :=
    [ "Turn: " +:+ player_name (turn st);
      "Player1: " +:+ Py.str (get_pos (positions st) Player1);
      "Player2: " +:+ Py.str (get_pos (positions st) Player2);
      "";
      "Events:" ] in
  let lines :=
    if bool_decide (events st ≠ ∅) then
      lines ++ (event_line (events st) <$> sorted_tiles (events st))
    else lines in
  Py.join (String Py.LF "") lines.

(** ** The process: the global [state] and the file [game.txt] *)

Record World := {
  game : GameState;          (* the global [state] *)
  disk : GameFile;           (* what is found at [game.txt] *)
  writable : bool            (* whether opening it for writing succeeds *)
}.

Definition set_game (w : World) (s : GameState) : World :=
  {| game := s; disk := disk w; writable := writable w |}.

(** [load_game_state()] *)
Definition load_game_state (w : World) : result World :=
  parsed ← parse_game_file (disk w);
  Ok (set_game w {| turn := turn parsed; positions := positions parsed;
                    events := events parsed; winner := winner parsed |}).

(** [save_game_state()] *)
Definition save_game_state (w : World) : result World :=
  if writable w then
    Ok {| game := game w; disk := Text (write_game_file (game w));
          writable := true |}
  else Raise OSError.

(** [handle_roll()] with the value [die] of [roll_die()]: the new world, the
    JSON payload and the HTTP status. *)
Definition handle_roll (w : World) (die : Z) : World * (MoveOutcome * Z) :=
  match winner (game w) with
  | Some win => (w, (GameAlreadyFinished win, 400))
  | None =>
      let player := turn (game w) in
      let '(s, result) := attempt_move (game w) player die in
      let s := if winner s is None then switch_turn s else s in
      let w := set_game w s in
      let w := try_except (save_game_state w) w in
      (w, (result, 200))
  end.

(** [handle_save()]: the new world, the [saved] flag and the HTTP status. *)
Definition handle_save (w : World) : World * (bool * Z) :=
  match save_game_state w with
  | Ok w' => (w', (true, 200))
  | Raise _ => (w, (false, 500))
  end.

(** [handle_reset()] *)
Definition handle_reset (w : World) : result World := load_game_state w.

(** The worlds of a run of the server: the module is loaded, which sets
    [state] to its literal and calls [load_game_state]; then requests are
    served, and the game file may be edited from outside in between. *)
Inductive running : World → Prop :=
| run_start w0 w :
    game w0 = default_state → load_game_state w0 = Ok w → running w
| run_roll w die :
    running w → 1 ≤ die ≤ 6 → running (handle_roll w die).1
| run_save w : running w → running (handle_save w).1
| run_reset w w' : running w → handle_reset w = Ok w' → running w'
| run_edit w file b :
    running w → running {| game := game w; disk := file; writable := b |}.

(** ** Notions used to state the properties *)

(** [max(0, min(LAST_TILE, z))] *)
Definition clamp (z : Z) : Z := Z.max 0 (Z.min LAST_TILE z).

Definition on_board (z : Z) : Prop := 0 ≤ z ≤ LAST_TILE.

(** Both players stand on the board. *)
Definition in_range (s : GameState) : Prop :=
  on_board (get_pos (positions s) Player1) ∧
  on_board (get_pos (positions s) Player2).

Definition opponent (p : Player) : Player :=
  match p with
  | Player1 => Player2
  | Player2 => Player1
  end.

(** The states the program can be in: the initial literal, whatever a load
    of the game file gives, and what the moves make of a reachable state. *)
Inductive reachable : GameState → Prop :=
| reach_initial : reachable default_state
| reach_load file s : parse_game_file file = Ok s → reachable s
| reach_attempt_move s player steps :
    reachable s → reachable (attempt_move s player steps).1
| reach_apply_events s player :
    reachable s → reachable (apply_events s player).1
| reach_switch_turn s : reachable s → reachable (switch_turn s).

(** The shift of one stored event name, and the name reported for it. *)
Definition event_shift (ev : string) : Z :=
  if bool_decide (Py.lower ev = "treasure") then 10
  else if bool_decide (Py.lower ev = "portal") then -3
  else 0.

Definition event_report (ev : string) : option string :=
  if bool_decide (Py.lower ev = "treasure") then Some "Treasure"
  else if bool_decide (Py.lower ev = "portal") then Some "Portal"
  else None.

Definition sum_shifts (evs : list string) : Z :=
  foldr (λ ev acc, event_shift ev + acc) 0 evs.

(** A line that one of the four key tests of [parse_line] catches. *)
Definition is_header (ln : string) : bool :=
  Py.startswith (Py.lower ln) "turn:"
  || Py.startswith (Py.lower ln) "player1:"
  || Py.startswith (Py.lower ln) "player2:"
  || Py.startswith (Py.lower ln) "events:".

(** The winner that the end of [parse_game_file] reads off the positions. *)
Definition crowned (ps : Positions) : option Player :=
  if LAST_TILE <=? player2 ps then Some Player2
  else if LAST_TILE <=? player1 ps then Some Player1
  else None.

(** An event name in the form in which the parser stores names: not empty,
    no blank at either end, no comma, no line break, capitalised. *)
Definition stored_name (e : string) : Prop :=
  e ≠ "" ∧ Py.lstrip e = e ∧ Py.rstrip e = e ∧ Py.capitalize e = e
  ∧ Py.contains "," e = false
  ∧ Py.contains Py.LF e = false ∧ Py.contains Py.CR e = false.

(** An events table in the form in which the parser builds tables: no tile
    with an empty list, stored names only. *)
Definition stored_events (d : gmap Z (list string)) : Prop :=
  ∀ tile evs, d !! tile = Some evs → evs ≠ [] ∧ Forall stored_name evs.

(** All characters of a string satisfy a test. *)
Fixpoint all_chars (P : ascii → bool) (s : string) : bool :=
  match s with
  | "" => true
  | String c s' => P c && all_chars P s'
  end.

Definition is_digit (c : ascii) : bool :=
  match Py.digit_val c with
  | Some _ => true
  | None => false
  end.

(** Text within ASCII, on which the modelled built-ins are Python's. *)
Definition ascii_char (c : ascii) : bool := (N_of_ascii c <? 128)%N.

Definition ascii_text (s : string) : Prop := all_chars ascii_char s = true.

(** A game file that is missing or holds ASCII text. *)
Definition ascii_file (file : GameFile) : Prop :=
  match file with
  | Text text => ascii_text text
  | Missing => True
  | Unreadable _ => False
  end.

(** An events table with ASCII names only. *)
Definition ascii_events (d : gmap Z (list string)) : Prop :=
  ∀ tile evs, d !! tile = Some evs → Forall ascii_text evs.

(** A string without a line break. *)
Definition no_break (s : string) : Prop :=
  Py.contains Py.LF s = false ∧ Py.contains Py.CR s = false.

(** The lines that [write_game_file] joins. *)
Definition written_lines (st : GameState) : list string :=
  [ "Turn: " +:+ player_name (turn st);
    "Player1: " +:+ Py.str (get_pos (positions st) Player1);
    "Player2: " +:+ Py.str (get_pos (positions st) Player2);
    "";
    "Events:" ] ++ (event_line (events st) <$> sorted_tiles (events st)).

(** ** The remaining handlers and notions for their properties *)

(** The JSON object of [get_game_state()]. *)
Record GameView := {
  gv_turn : Player;
  gv_positions : Positions;
  gv_events : gmap Z (list string);
  gv_winner : option Player;
  gv_last_tile : Z
}.

(** [get_game_state()] *)
Definition get_game_state (w : World) : GameView :=
  {| gv_turn := turn (game w); gv_positions := positions (game w);
     gv_events := events (game w); gv_winner := winner (game w);
     gv_last_tile := LAST_TILE |}.

(** A value that [roll_die()], that is [random.randint(1, 6)], can return. *)
Definition die_value (d : Z) : Prop := 1 ≤ d ≤ 6.

(** A series of [/roll] requests with the given dice: the final world and
    the responses in order. *)
Fixpoint rolls (w : World) (dice : list Z)
  : World * list (MoveOutcome * Z) :=
  match dice with
  | [] => (w, [])
  | d :: dice' =>
      let '(w1, r) := handle_roll w d in
      let '(w2, rs) := rolls w1 dice' in
      (w2, r :: rs)
  end.

(** A line that the first test of [parse_line] skips: blank or comment. *)
Definition skipped (ln : string) : bool :=
  bool_decide (ln = "") || Py.startswith ln "#".

(** An events table none of whose names acts as a Portal. *)
Definition no_portal (d : gmap Z (list string)) : Prop :=
  ∀ tile evs, d !! tile = Some evs →
    Forall (λ e, Py.lower e ≠ "portal") evs.

(** * Properties *)

(** ** The built-ins on examples *)

Example int_examples :
  Py.int " 42 " = Ok 42 ∧ Py.int "-7" = Ok (-7) ∧ Py.int "+1_000" = Ok 1000 ∧
  Py.int "abc" = Raise ValueError ∧ Py.int "" = Raise ValueError ∧
  Py.int "1__0" = Raise ValueError ∧ Py.int "- 5" = Raise ValueError ∧
  Py.int "007" = Ok 7 ∧ Py.int "5_" = Raise ValueError.
Proof. repeat split; reflexivity. Qed.

Example str_examples :
  Py.str 0 = "0" ∧ Py.str 100 = "100" ∧ Py.str (-35) = "-35" ∧ Py.str 9 = "9"
  ∧ Py.str 1024 = "1024".
Proof. repeat split; reflexivity. Qed.

Example readlines_examples :
  Py.readlines (String "a" (String Py.CR (String Py.LF "b")))
    = [String "a" (String Py.LF ""); "b"]
  ∧ Py.readlines "" = [] ∧ Py.split "," "a,,b" = ["a"; ""; "b"]
  ∧ Py.split1 ":" "a:b:c" = ["a"; "b:c"] ∧ Py.split1 ":" "abc" = ["abc"]
  ∧ Py.strip "  a b   " = "a b" ∧ Py.capitalize "tREASURE x" = "Treasure x"
  ∧ Py.join ", " ["a";"b";"c"] = "a, b, c".
Proof. repeat split; reflexivity. Qed.

(** ** Moves *)

Lemma get_set_pos_eq ps p v : get_pos (set_pos ps p v) p = v.
Proof. by destruct p. Qed.

Lemma get_set_pos_ne ps p q v : p ≠ q → get_pos (set_pos ps p v) q = get_pos ps q.
Proof. by destruct p, q. Qed.

Lemma clamp_on_board z : on_board (clamp z).
Proof. unfold on_board, clamp, LAST_TILE. lia. Qed.

Lemma apply_event_fold evs pos applied :
  foldl apply_event (pos, applied) evs
  = (pos + sum_shifts evs, applied ++ omap event_report evs).
Proof.
  revert pos applied.
  induction evs as [|ev evs IH]; intros pos applied; simpl.
  - by rewrite Z.add_0_r, app_nil_r.
  - unfold event_shift, event_report, TREASURE_MOVE, PORTAL_MOVE.
    repeat case_bool_decide; rewrite IH; simpl;
      rewrite <- ?(assoc_L (++)); simpl; f_equal; lia.
Qed.

Lemma apply_events_eq s player :
  apply_events s player =
  let pos := get_pos (positions s) player in
  let evs := default [] (events s !! pos) in
  let final := clamp (pos + sum_shifts evs) in
  (let s' := set_position s player final in
   if LAST_TILE <=? final then set_winner s' (Some player) else s',
   (omap event_report evs, final)).
Proof.
  unfold apply_events. rewrite apply_event_fold. reflexivity.
Qed.

(** C6. [apply_events] walks the names stored for the tile the player stands
    on in their stored order; a name that lower-cases to "treasure" adds 10
    and is reported as Treasure, one that lower-cases to "portal" subtracts 3
    and is reported as Portal, any other name changes nothing and is not
    reported; the sum is clamped to the board once, after the last event.  A
    tile holding Treasure then Portal gives [clamp (pos + 10 - 3)], and from
    tile 95 that is 100, not 97. *)
Theorem apply_events_in_stored_order :
  (∀ s player,
     let pos := get_pos (positions s) player in
     let evs := default [] (events s !! pos) in
     let '(s', (applied, final)) := apply_events s player in
     final = clamp (pos + sum_shifts evs)
     ∧ applied = omap event_report evs
     ∧ get_pos (positions s') player = final
     ∧ get_pos (positions s') (opponent player)
       = get_pos (positions s) (opponent player)
     ∧ events s' = events s ∧ turn s' = turn s)
  ∧ (∀ ev, Py.lower ev ≠ "treasure" → Py.lower ev ≠ "portal" →
       ∀ acc, apply_event acc ev = acc)
  ∧ (∀ acc evs, foldl apply_event acc (evs ++ ["Treasure"])
       = (λ '(pos, applied), (pos + 10, applied ++ ["Treasure"]))
           (foldl apply_event acc evs))
  ∧ (∀ acc evs, foldl apply_event acc (evs ++ ["Portal"])
       = (λ '(pos, applied), (pos - 3, applied ++ ["Portal"]))
           (foldl apply_event acc evs))
  ∧ (∀ s player,
       events s !! get_pos (positions s) player = Some ["Treasure"; "Portal"] →
       (apply_events s player).2
       = (["Treasure"; "Portal"],
          clamp (get_pos (positions s) player + 10 - 3)))
  ∧ (apply_events
       {| turn := Player1; positions := {| player1 := 95; player2 := 0 |};
          events := {[ 95 := ["Treasure"; "Portal"] ]}; winner := None |}
       Player1).2 = (["Treasure"; "Portal"], 100).
Proof.
  split_and!.
  - intros s player. rewrite apply_events_eq. cbv zeta.
    split_and!; try done.
    + case_match; simpl; apply get_set_pos_eq.
    + case_match; simpl; apply get_set_pos_ne; by destruct player.
    + by case_match.
    + by case_match.
  - intros ev H1 H2 [pos applied]. unfold apply_event.
    by rewrite !bool_decide_eq_false_2.
  - intros acc evs. rewrite foldl_app. simpl. by destruct (foldl _ _ _).
  - intros acc evs. rewrite foldl_app. simpl. by destruct (foldl _ _ _).
  - intros s player Hev. rewrite apply_events_eq. cbv zeta. rewrite Hev.
    simpl. do 2 f_equal. unfold sum_shifts. simpl. unfold event_shift. simpl. lia.
  - reflexivity.
Qed.

Lemma apply_events_in_stored_order_witness :
  apply_event (93, ["Portal"]) "Bogus thing" = (93, ["Portal"])
  ∧ (apply_events
       {| turn := Player2; positions := {| player1 := 0; player2 := 20 |};
          events := {[ 20 := ["Treasure"; "Portal"] ]}; winner := None |}
       Player2).2
    = (["Treasure"; "Portal"], clamp (20 + 10 - 3)).
Proof.
  destruct apply_events_in_stored_order as (_ & Hskip & _ & _ & Htp & _).
  split.
  - apply Hskip; by vm_compute.
  - by apply (Htp
      {| turn := Player2; positions := {| player1 := 0; player2 := 20 |};
         events := {[ 20 := ["Treasure"; "Portal"] ]}; winner := None |}
      Player2).
Defined.

(** C4. Once a winner is set, [attempt_move] returns the error carrying that
    winner and hands back the state as it was, whatever the player and the
    number of steps. *)
Theorem attempt_move_game_already_finished s w player steps :
  winner s = Some w →
  attempt_move s player steps = (s, GameAlreadyFinished w).
Proof. intros Hw. unfold attempt_move. by rewrite Hw. Qed.

Lemma attempt_move_game_already_finished_witness :
  attempt_move
    {| turn := Player1; positions := {| player1 := 100; player2 := 42 |};
       events := ∅; winner := Some Player1 |} Player2 3
  = ({| turn := Player1; positions := {| player1 := 100; player2 := 42 |};
        events := ∅; winner := Some Player1 |}, GameAlreadyFinished Player1).
Proof. by apply attempt_move_game_already_finished. Defined.

(** C2. With no winner yet, a roll of 1 to 6 that takes the player to or past
    the last tile puts the player on the last tile, makes the player the
    winner in the state and in the result, and reports no events; nothing
    else in the state changes, so no event of the last tile is resolved. *)
Theorem attempt_move_win_clamp s player steps :
  winner s = None →
  1 ≤ steps ≤ 6 →
  LAST_TILE ≤ get_pos (positions s) player + steps →
  attempt_move s player steps =
    (set_winner (set_position s player LAST_TILE) (Some player),
     Moved {| mr_player := player; mr_rolled := steps;
              mr_start := get_pos (positions s) player;
              mr_moved_to := LAST_TILE; mr_events := [];
              mr_final := LAST_TILE; mr_winner := Some player |}).
Proof.
  intros Hw _ Hge. unfold attempt_move. rewrite Hw.
  rewrite Z.min_r by lia. by rewrite Z.leb_refl.
Qed.

Lemma attempt_move_win_clamp_witness :
  attempt_move
    {| turn := Player2; positions := {| player1 := 3; player2 := 96 |};
       events := {[ 100 := ["Portal"] ]}; winner := None |} Player2 6
  = ({| turn := Player2; positions := {| player1 := 3; player2 := 100 |};
        events := {[ 100 := ["Portal"] ]}; winner := Some Player2 |},
     Moved {| mr_player := Player2; mr_rolled := 6; mr_start := 96;
              mr_moved_to := 100; mr_events := []; mr_final := 100;
              mr_winner := Some Player2 |}).
Proof.
  exact (attempt_move_win_clamp
    {| turn := Player2; positions := {| player1 := 3; player2 := 96 |};
       events := {[ 100 := ["Portal"] ]}; winner := None |} Player2 6
    eq_refl ltac:(lia) ltac:(by vm_compute)).
Defined.

Lemma attempt_move_turn s player steps :
  turn (attempt_move s player steps).1 = turn s.
Proof.
  unfold attempt_move. destruct (winner s); [reflexivity|].
  case_match; [reflexivity|]. rewrite apply_events_eq. simpl.
  by case_match.
Qed.

Lemma attempt_move_winner s player steps :
  winner s = None →
  winner (attempt_move s player steps).1 = None
  ∨ winner (attempt_move s player steps).1 = Some player.
Proof.
  intros Hw. unfold attempt_move. rewrite Hw.
  case_match; [by right|]. rewrite apply_events_eq. simpl.
  case_match; simpl; auto.
Qed.

(** C3. A roll on a state without a winner either leaves the game open, and
    then the turn has passed to the other player, or it sets a winner, and
    then the turn has stayed with the player who rolled, who is the winner. *)
Theorem handle_roll_turn_alternation w die :
  winner (game w) = None →
  let w' := (handle_roll w die).1 in
  match winner (game w') with
  | None =>
      turn (game w') = opponent (turn (game w))
      ∧ turn (game w') = turn (switch_turn (game w))
  | Some p => turn (game w') = turn (game w) ∧ p = turn (game w)
  end.
Proof.
  intros Hw. unfold handle_roll. rewrite Hw.
  pose proof (attempt_move_turn (game w) (turn (game w)) die) as Ht.
  pose proof (attempt_move_winner (game w) (turn (game w)) die Hw) as Hwin.
  destruct (attempt_move (game w) (turn (game w)) die) as [s r]. simpl in *.
  assert (∀ x, game (try_except (save_game_state (set_game w x)) (set_game w x)) = x)
    as Hsave.
  { intros x. unfold save_game_state. simpl. by destruct (writable w). }
  simpl. rewrite Hsave.
  destruct Hwin as [Hn|Hs]; rewrite Hn || rewrite Hs; simpl.
  - rewrite Hn. unfold switch_turn. simpl. rewrite Ht.
    by destruct (turn (game w)).
  - rewrite Hs. done.
Qed.

Lemma handle_roll_turn_alternation_witness :
  let w := {| game := {| turn := Player1;
                         positions := {| player1 := 88; player2 := 96 |};
                         events := {[ 93 := ["Portal"] ]}; winner := None |};
              disk := Missing; writable := true |} in
  turn (game (handle_roll w 5).1) = Player2
  ∧ get_pos (positions (game (handle_roll w 5).1)) Player1 = 90
  ∧ winner (game (handle_roll w 5).1) = None.
Proof.
  intros w.
  pose proof (handle_roll_turn_alternation w 5 eq_refl) as H.
  vm_compute in H. destruct H as [H _]. split; [exact H|]. by vm_compute.
Defined.

(** ** Facts about the string built-ins *)

Lemma lower_char_not_letter c d :
  Py.is_upper d = false → Py.is_lower d = false →
  Py.lower_char c = d → c = d.
Proof.
  intros Hu Hl <-. unfold Py.lower_char in *.
  destruct (Py.is_upper c) eqn:Hc; [|done].
  exfalso. revert Hc Hu Hl.
  destruct c as [[] [] [] [] [] [] [] []]; by vm_compute.
Qed.

Lemma lower_char_fix d :
  Py.is_upper d = false → Py.lower_char d = d.
Proof. intros H. unfold Py.lower_char. by rewrite H. Qed.

Lemma contains_lower c s :
  Py.is_upper c = false → Py.is_lower c = false →
  Py.contains c (Py.lower s) = Py.contains c s.
Proof.
  intros Hu Hl. induction s as [|a s IH]; [done|]. simpl. rewrite IH.
  f_equal. apply bool_decide_ext. split.
  - by apply lower_char_not_letter.
  - intros ->. by apply lower_char_fix.
Qed.

Lemma lower_app a b : Py.lower (a +:+ b) = Py.lower a +:+ Py.lower b.
Proof. induction a as [|c a IH]; [done|]. simpl. by rewrite IH. Qed.

Lemma startswith_contains c s p :
  Py.startswith s p = true → Py.contains c p = true → Py.contains c s = true.
Proof.
  revert s. induction p as [|a p IH]; intros [|b s]; simpl; try done.
  intros [Hab Hs]%andb_prop Hc. apply bool_decide_eq_true_1 in Hab as <-.
  apply orb_prop in Hc as [->|Hc]; [done|].
  rewrite (IH s Hs Hc). by rewrite orb_true_r.
Qed.

Lemma split1_contains sep s :
  Py.contains sep s = true → ∃ a b, Py.split1 sep s = [a; b].
Proof.
  induction s as [|c s IH]; [done|]. simpl.
  case_bool_decide; simpl; [by eauto|].
  intros [a [b ->]]%IH. eauto.
Qed.

Lemma split1_no_sep sep s :
  Py.contains sep s = false → Py.split1 sep s = [s].
Proof.
  induction s as [|c s IH]; [done|]. simpl.
  case_bool_decide; simpl; [done|]. by intros ->%IH.
Qed.

Lemma split1_app sep a b :
  Py.contains sep a = false → Py.split1 sep (a +:+ String sep b) = [a; b].
Proof.
  induction a as [|c a IH]; simpl.
  - intros _. by rewrite bool_decide_eq_true_2.
  - case_bool_decide; simpl; [done|]. intros Ha. by rewrite (IH Ha).
Qed.

(** A line that starts with a key and its colon has a part after the colon. *)
Lemma header_split1 ln p :
  Py.startswith (Py.lower ln) p = true → Py.contains ":" p = true →
  ∃ a b, Py.split1 ":" ln = [a; b].
Proof.
  intros Hs Hp. apply split1_contains.
  rewrite <- (contains_lower ":" ln) by done.
  by eapply startswith_contains.
Qed.

(** ** The parser returns *)

Lemma parse_line_ok acc ln : ∃ acc', parse_line acc ln = Ok acc'.
Proof.
  destruct acc as [parsed mode]. unfold parse_line.
  repeat (case_match; [by eauto|]).
  destruct (Py.startswith (Py.lower ln) "turn:") eqn:Ht.
  { destruct (header_split1 ln "turn:" Ht eq_refl) as (a & b & ->).
    simpl. eauto. }
  repeat (case_match; [by eauto|]).
  case_match; [|by eauto].
  destruct (Py.contains ":" ln) eqn:Hc; simpl; [|by eauto].
  destruct (split1_contains _ _ Hc) as (a & b & ->). simpl.
  repeat case_match; eauto.
Qed.

Lemma parse_lines_ok lines : ∀ acc, ∃ acc', parse_lines acc lines = Ok acc'.
Proof.
  induction lines as [|ln lines IH]; intros acc; simpl; [by eauto|].
  destruct (parse_line_ok acc ln) as [acc' ->]. simpl. apply IH.
Qed.

Lemma parse_game_file_text text : ∃ s, parse_game_file (Text text) = Ok s.
Proof.
  simpl.
  destruct (parse_lines_ok (Py.strip <$> Py.readlines text)
              (default_state, NoMode)) as [[parsed mode] ->].
  simpl. eauto.
Qed.

(** The only exception that leaves [parse_game_file] is the one of a file
    that cannot be opened or decoded. *)
Lemma parse_game_file_raise file e :
  parse_game_file file = Raise e → file = Unreadable e.
Proof.
  destruct file as [|e'|text]; [done|by intros [= ->]|].
  destruct (parse_game_file_text text) as [s ->]. done.
Qed.

Lemma parse_game_file_ok file :
  (∀ e, file ≠ Unreadable e) → ∃ s, parse_game_file file = Ok s.
Proof.
  intros Hf. destruct (parse_game_file file) as [s|e] eqn:Hp; [by eauto|].
  apply parse_game_file_raise in Hp. by destruct (Hf e).
Qed.

(** A line made of a key, a colon and a value, seen by the key tests. *)
Lemma key_line_lower key v :
  Py.lower (key +:+ String ":" v) = Py.lower key +:+ String ":" (Py.lower v).
Proof. by rewrite lower_app. Qed.

Lemma key_line_split1 key k v :
  Py.lower key = k → Py.contains ":" k = false →
  Py.split1 ":" (key +:+ String ":" v) = [key; v].
Proof.
  intros <- Hk. apply split1_app. by rewrite <- (contains_lower ":" key).
Qed.

Lemma startswith_lower_hash s :
  Py.startswith s "#" = true → Py.startswith (Py.lower s) "#" = true.
Proof.
  destruct s as [|c s]; [done|]. simpl. rewrite !andb_true_r.
  intros <-%bool_decide_eq_true_1. by apply bool_decide_eq_true_2.
Qed.

Lemma key_line_not_skipped key k v :
  Py.lower key = k → Py.startswith (k +:+ ":") "#" = false →
  bool_decide (key +:+ String ":" v = "")
  || Py.startswith (key +:+ String ":" v) "#" = false.
Proof.
  intros Hk Hh. apply orb_false_intro.
  - apply bool_decide_eq_false_2. by destruct key.
  - destruct (Py.startswith (key +:+ String ":" v) "#") eqn:E; [|done].
    apply startswith_lower_hash in E. rewrite key_line_lower, Hk in E.
    destruct k as [|c k]; simpl in *; congruence.
Qed.

Lemma parse_line_turn parsed mode key v :
  Py.lower key = "turn" →
  parse_line (parsed, mode) (key +:+ String ":" v)
  = Ok (set_turn parsed (turn_of (Py.strip v)), mode).
Proof.
  intros Hk. unfold parse_line.
  rewrite (key_line_not_skipped key "turn" v Hk eq_refl).
  rewrite key_line_lower, Hk. simpl.
  by rewrite (key_line_split1 key "turn" v Hk eq_refl).
Qed.

Lemma parse_line_player1 parsed mode key v :
  Py.lower key = "player1" →
  parse_line (parsed, mode) (key +:+ String ":" v)
  = Ok (set_position parsed Player1
          (try_except (n ← Py.int (Py.strip v); Ok (Z.max 0 n)) 0), mode).
Proof.
  intros Hk. unfold parse_line, position_field.
  rewrite (key_line_not_skipped key "player1" v Hk eq_refl).
  rewrite key_line_lower, Hk. simpl.
  by rewrite (key_line_split1 key "player1" v Hk eq_refl).
Qed.

Lemma parse_line_player2 parsed mode key v :
  Py.lower key = "player2" →
  parse_line (parsed, mode) (key +:+ String ":" v)
  = Ok (set_position parsed Player2
          (try_except (n ← Py.int (Py.strip v); Ok (Z.max 0 n)) 0), mode).
Proof.
  intros Hk. unfold parse_line, position_field.
  rewrite (key_line_not_skipped key "player2" v Hk eq_refl).
  rewrite key_line_lower, Hk. simpl.
  by rewrite (key_line_split1 key "player2" v Hk eq_refl).
Qed.

(** C8. [parse_game_file] returns a state for every text that the file is
    read as and for a missing file, never an exception; the only exception
    that can leave it is the one of an [open] or a decoding that fails, before
    any text is read.  A [Turn:] line whose value is neither Player1 nor
    Player2 sets the turn to Player1; a [Player1:] or [Player2:] line whose
    value [int] rejects sets that position to 0; a missing file gives the
    default state. *)
Theorem parse_game_file_total_with_defaults :
  (∀ text, ∃ s, parse_game_file (Text text) = Ok s)
  ∧ (∀ file e, parse_game_file file = Raise e → file = Unreadable e)
  ∧ (∀ parsed mode key v,
       Py.lower key = "turn" →
       Py.strip v ≠ "Player1" → Py.strip v ≠ "Player2" →
       parse_line (parsed, mode) (key +:+ String ":" v)
       = Ok (set_turn parsed Player1, mode))
  ∧ (∀ parsed mode key v e,
       Py.lower key = "player1" → Py.int (Py.strip v) = Raise e →
       parse_line (parsed, mode) (key +:+ String ":" v)
       = Ok (set_position parsed Player1 0, mode))
  ∧ (∀ parsed mode key v e,
       Py.lower key = "player2" → Py.int (Py.strip v) = Raise e →
       parse_line (parsed, mode) (key +:+ String ":" v)
       = Ok (set_position parsed Player2 0, mode))
  ∧ parse_game_file (Text "Player1: abc") = Ok default_state
  ∧ parse_game_file (Text "Turn: player2") = Ok default_state
  ∧ parse_game_file Missing = Ok default_state.
Proof.
  split_and!; try reflexivity.
  - apply parse_game_file_text.
  - apply parse_game_file_raise.
  - intros parsed mode key v Hk H1 H2. rewrite parse_line_turn by done.
    unfold turn_of. by rewrite !bool_decide_eq_false_2.
  - intros parsed mode key v e Hk Hv. rewrite parse_line_player1 by done.
    by rewrite Hv.
  - intros parsed mode key v e Hk Hv. rewrite parse_line_player2 by done.
    by rewrite Hv.
Qed.

Lemma parse_game_file_total_with_defaults_witness :
  parse_line (set_turn default_state Player2, NoMode) "TURN: Player3"
  = Ok (default_state, NoMode)
  ∧ parse_line (set_position default_state Player1 7, EventsMode) "player1:1.5"
    = Ok (default_state, EventsMode).
Proof.
  destruct parse_game_file_total_with_defaults as (_ & _ & Ht & Hp & _).
  split.
  - exact (Ht (set_turn default_state Player2) NoMode "TURN" " Player3"
             eq_refl ltac:(by vm_compute) ltac:(by vm_compute)).
  - exact (Hp (set_position default_state Player1 7) EventsMode "player1" "1.5"
             ValueError eq_refl eq_refl).
Defined.

(** ** What a line can change *)

Lemma lookup_extend_at tile evs (d : gmap Z (list string)) t :
  extend_at tile evs d !! t
  = if decide (tile = t) then Some (default [] (d !! tile) ++ evs) else d !! t.
Proof. unfold extend_at. apply lookup_insert. Qed.

(** Every line leaves the winner alone, and changes the events only by
    extending one tile with the names of a [<tile>: <names>] line. *)
Lemma parse_line_inv parsed mode ln parsed' mode' :
  parse_line (parsed, mode) ln = Ok (parsed', mode') →
  winner parsed' = winner parsed
  ∧ (mode = EventsMode → mode' = EventsMode)
  ∧ (events parsed' = events parsed
     ∨ ∃ lhs rhs tile,
         Py.split1 ":" ln = [lhs; rhs] ∧ Py.int (Py.strip lhs) = Ok tile
         ∧ event_names rhs ≠ []
         ∧ events parsed' = extend_at tile (event_names rhs) (events parsed)).
Proof.
  unfold parse_line. intros H.
  destruct (_ || _); [by simplify_eq; auto|].
  destruct (Py.startswith _ "turn:").
  { unfold mbind, result_bind in H. destruct (Py.index _ _); by simplify_eq; auto. }
  do 3 (destruct (Py.startswith _ _); [by simplify_eq; auto|]).
  case_bool_decide; [|by simplify_eq; auto].
  destruct (negb _); [by simplify_eq; auto|].
  unfold mbind, result_bind, Py.unpack2 in H.
  destruct (Py.split1 ":" ln) as [|lhs [|rhs [|]]]; try done.
  destruct (Py.int _) as [tile|] eqn:Hint; [|by simplify_eq; auto].
  case_bool_decide; [|by simplify_eq; auto].
  simplify_eq. split_and!; [done..|]. right. eauto 10.
Qed.

Lemma parse_line_not_header parsed mode ln parsed' mode' :
  is_header ln = false →
  parse_line (parsed, mode) ln = Ok (parsed', mode') →
  turn parsed' = turn parsed ∧ positions parsed' = positions parsed
  ∧ mode' = mode.
Proof.
  unfold is_header. intros Hh.
  apply orb_false_elim in Hh as [Hh He].
  apply orb_false_elim in Hh as [Hh H2].
  apply orb_false_elim in Hh as [Ht H1].
  unfold parse_line. rewrite Ht, H1, H2, He. intros H.
  destruct (_ || _); [by simplify_eq|].
  case_bool_decide; [|by simplify_eq].
  destruct (negb _); [by simplify_eq|].
  unfold mbind, result_bind, Py.unpack2 in H.
  destruct (Py.split1 ":" ln) as [|lhs [|rhs [|]]]; try done.
  destruct (Py.int _) as [tile|]; [|by simplify_eq].
  case_bool_decide; by simplify_eq.
Qed.

Lemma parse_lines_winner lines : ∀ acc acc',
  parse_lines acc lines = Ok acc' → winner acc'.1 = winner acc.1.
Proof.
  induction lines as [|ln lines IH]; intros [parsed mode] acc'; simpl.
  - by intros [= <-].
  - destruct (parse_line_ok (parsed, mode) ln) as [[p1 m1] E]. rewrite E. simpl.
    intros ->%IH. simpl. by apply parse_line_inv in E as [-> _].
Qed.

(** ** The end of [parse_game_file] *)

Lemma finish_positions parsed :
  winner parsed = None →
  let s := foldl crown_player (foldl clamp_player parsed [Player1; Player2])
             [Player1; Player2] in
  (∀ p, get_pos (positions s) p = clamp (get_pos (positions parsed) p))
  ∧ winner s =
      (if LAST_TILE <=? get_pos (positions parsed) Player2 then Some Player2
       else if LAST_TILE <=? get_pos (positions parsed) Player1
            then Some Player1 else None)
  ∧ events s = events parsed ∧ turn s = turn parsed.
Proof.
  intros Hw. destruct parsed as [t [p1 p2] e w]. simpl in *. subst w.
  unfold crown_player, clamp_player, clamp, LAST_TILE. simpl.
  destruct (Z.leb_spec 100 p1), (Z.leb_spec 100 p2);
    repeat (case_match; simpl in *; try lia);
    (split_and!; [intros []; simpl; lia|done..]).
Qed.

(** C9. At the end of [parse_game_file] each position is clamped to the
    board, so a player parsed at or beyond the last tile stands exactly on
    it; the winner is Player2 when Player2 was parsed there, whatever
    Player1's position, else Player1 when Player1 was, else nobody. *)
Theorem parse_winner_tie_break :
  (∀ text, ∃ parsed mode s,
     parse_lines (default_state, NoMode) (Py.strip <$> Py.readlines text)
       = Ok (parsed, mode)
     ∧ parse_game_file (Text text) = Ok s
     ∧ (∀ p, get_pos (positions s) p = clamp (get_pos (positions parsed) p))
     ∧ (∀ p, LAST_TILE ≤ get_pos (positions parsed) p →
             get_pos (positions s) p = LAST_TILE)
     ∧ (LAST_TILE ≤ get_pos (positions parsed) Player2 →
        winner s = Some Player2)
     ∧ (LAST_TILE ≤ get_pos (positions parsed) Player1 →
        get_pos (positions parsed) Player2 < LAST_TILE →
        winner s = Some Player1)
     ∧ (get_pos (positions parsed) Player1 < LAST_TILE →
        get_pos (positions parsed) Player2 < LAST_TILE →
        winner s = None))
  ∧ parse_game_file
      (Text (Py.join (String Py.LF "") ["Player1: 150"; "Player2: 100"]))
    = Ok {| turn := Player1;
            positions := {| player1 := 100; player2 := 100 |};
            events := ∅; winner := Some Player2 |}
  ∧ parse_game_file (Text "Player1: 100")
    = Ok {| turn := Player1;
            positions := {| player1 := 100; player2 := 0 |};
            events := ∅; winner := Some Player1 |}.
Proof.
  split_and!; [|reflexivity..].
  intros text.
  destruct (parse_lines_ok (Py.strip <$> Py.readlines text)
              (default_state, NoMode)) as [[parsed mode] E].
  exists parsed, mode,
    (foldl crown_player (foldl clamp_player parsed [Player1; Player2])
       [Player1; Player2]).
  split; [done|]. split; [unfold parse_game_file; by rewrite E|].
  apply parse_lines_winner in E.
  destruct (finish_positions parsed E) as (Hp & Hw & _).
  split_and!.
  - done.
  - intros p Hge. rewrite Hp. unfold clamp, LAST_TILE in *. lia.
  - intros Hge. rewrite Hw. by rewrite (proj2 (Z.leb_le _ _) Hge).
  - intros H1 H2. rewrite Hw.
    rewrite (proj2 (Z.leb_gt _ _) H2). by rewrite (proj2 (Z.leb_le _ _) H1).
  - intros H1 H2. rewrite Hw.
    by rewrite (proj2 (Z.leb_gt _ _) H2), (proj2 (Z.leb_gt _ _) H1).
Qed.

Lemma parse_winner_tie_break_witness :
  ∃ s, parse_game_file
         (Text (Py.join (String Py.LF "") ["Player2: 777"; "Player1: 100"]))
       = Ok s
       ∧ winner s = Some Player2
       ∧ get_pos (positions s) Player2 = LAST_TILE.
Proof.
  destruct (proj1 parse_winner_tie_break
              (Py.join (String Py.LF "") ["Player2: 777"; "Player1: 100"]))
    as (parsed & mode & s & E & Hp & _ & Hpos & Hw2 & _).
  assert (Ok (parsed, mode)
          = Ok ({| turn := Player1;
                   positions := {| player1 := 100; player2 := 777 |};
                   events := ∅; winner := None |}, NoMode)) as [= -> ->]
    by (by rewrite <- E).
  exists s. split; [done|]. split.
  - apply Hw2. by vm_compute.
  - apply Hpos. by vm_compute.
Defined.

(** ** The range invariant *)

Lemma in_range_set_position s p v :
  in_range s → on_board v → in_range (set_position s p v).
Proof. intros [H1 H2] Hv. by destruct p; split. Qed.

Lemma parse_game_file_in_range file s :
  parse_game_file file = Ok s → in_range s.
Proof.
  destruct file as [|e|text]; unfold parse_game_file.
  - intros [= <-]. by vm_compute.
  - done.
  - destruct (parse_lines_ok (Py.strip <$> Py.readlines text)
                (default_state, NoMode)) as [[parsed mode] E].
    rewrite E. intros [= <-].
    apply parse_lines_winner in E.
    destruct (finish_positions parsed E) as (Hp & _).
    split; rewrite Hp; apply clamp_on_board.
Qed.

Lemma apply_events_on_board s player :
  on_board (get_pos (positions s) (opponent player)) →
  in_range (apply_events s player).1.
Proof.
  intros Ho. rewrite apply_events_eq. simpl.
  pose proof (clamp_on_board
    (get_pos (positions s) player
     + sum_shifts (default [] (events s !! get_pos (positions s) player)))).
  case_match; destruct player; by split.
Qed.

Lemma apply_events_in_range s player :
  in_range s → in_range (apply_events s player).1.
Proof.
  intros [H1 H2]. apply apply_events_on_board. by destruct player.
Qed.

Lemma attempt_move_in_range s player steps :
  in_range s → in_range (attempt_move s player steps).1.
Proof.
  intros Hs. unfold attempt_move. destruct (winner s); [done|].
  set (new_pos := Z.min (get_pos (positions s) player + steps) LAST_TILE).
  destruct (Z.leb_spec LAST_TILE new_pos).
  - apply (in_range_set_position s); [done|].
    unfold on_board, LAST_TILE in *. lia.
  - pose proof (apply_events_on_board (set_position s player new_pos) player)
      as H'.
    destruct (apply_events _ _) as [s' [applied final]]. simpl in *.
    apply H'. destruct Hs as [H1 H2]. by destruct player.
Qed.

Lemma switch_turn_in_range s : in_range s → in_range (switch_turn s).
Proof. done. Qed.

(** C1. Every reachable state, that is the initial one, one loaded from the
    game file, or one produced from a reachable state by [attempt_move],
    [apply_events] or [switch_turn], has both players on a tile between 0 and
    [LAST_TILE]. *)
Theorem reachable_in_range s :
  reachable s →
  0 ≤ get_pos (positions s) Player1 ≤ LAST_TILE
  ∧ 0 ≤ get_pos (positions s) Player2 ≤ LAST_TILE.
Proof.
  intros H. change (in_range s).
  induction H as [|file s Hp|s player steps _ IH|s player _ IH|s _ IH].
  - by vm_compute.
  - by eapply parse_game_file_in_range.
  - by apply attempt_move_in_range.
  - by apply apply_events_in_range.
  - by apply switch_turn_in_range.
Qed.

Lemma reachable_in_range_witness :
  let s0 := {| turn := Player1;
               positions := {| player1 := 88; player2 := 0 |};
               events := {[ 93 := ["Portal"] ]}; winner := None |} in
  let s := switch_turn (attempt_move s0 Player1 5).1 in
  0 ≤ get_pos (positions s) Player1 ≤ LAST_TILE
  ∧ 0 ≤ get_pos (positions s) Player2 ≤ LAST_TILE.
Proof.
  intros s0 s. apply (reachable_in_range s).
  apply reach_switch_turn, reach_attempt_move.
  apply (reach_load
    (Text (Py.join (String Py.LF "") ["Player1: 88"; "Events:"; "93: portal"]))).
  reflexivity.
Defined.

(** ** Lines after [Events:] *)

Lemma parse_lines_not_header lines : ∀ parsed mode,
  Forall (λ ln, is_header ln = false) lines →
  ∃ parsed', parse_lines (parsed, mode) lines = Ok (parsed', mode)
             ∧ turn parsed' = turn parsed
             ∧ positions parsed' = positions parsed.
Proof.
  induction lines as [|ln lines IH]; intros parsed mode Hl; simpl.
  - by eauto.
  - apply Forall_cons in Hl as [Hln Hl].
    destruct (parse_line_ok (parsed, mode) ln) as [[p1 m1] E]. rewrite E. simpl.
    destruct (parse_line_not_header _ _ _ _ _ Hln E) as (Ht & Hp & ->).
    destruct (IH p1 mode Hl) as (p' & -> & Ht' & Hp').
    exists p'. split; [done|]. split; congruence.
Qed.

Lemma split1_two_contains sep s a b :
  Py.split1 sep s = [a; b] → Py.contains sep s = true.
Proof.
  intros Hs. destruct (Py.contains sep s) eqn:Hc; [done|].
  by rewrite (split1_no_sep _ _ Hc) in Hs.
Qed.

(** A tile line read in events mode. *)
Lemma parse_line_tile parsed ln lhs rhs tile :
  skipped ln = false → is_header ln = false →
  Py.split1 ":" ln = [lhs; rhs] → Py.int (Py.strip lhs) = Ok tile →
  parse_line (parsed, EventsMode) ln
  = Ok (if bool_decide (event_names rhs ≠ [])
        then set_events parsed (extend_at tile (event_names rhs) (events parsed))
        else parsed, EventsMode).
Proof.
  unfold skipped, is_header. intros Hsk Hh Hs Hi.
  apply orb_false_elim in Hh as [Hh He].
  apply orb_false_elim in Hh as [Hh H2].
  apply orb_false_elim in Hh as [Ht H1].
  unfold parse_line. rewrite Hsk, Ht, H1, H2, He.
  rewrite bool_decide_eq_true_2 by done.
  rewrite (split1_two_contains _ _ _ _ Hs), Hs. cbn. rewrite Hi.
  repeat case_bool_decide; done.
Qed.

Lemma parse_line_events_key parsed mode key v :
  Py.lower key = "events" →
  parse_line (parsed, mode) (key +:+ String ":" v) = Ok (parsed, EventsMode).
Proof.
  intros Hk. unfold parse_line.
  rewrite (key_line_not_skipped key "events" v Hk eq_refl).
  rewrite key_line_lower, Hk. done.
Qed.

(** C7, as the code has it.  The key tests come before the mode test, so
    after [Events:] a line that starts with [turn:], [player1:], [player2:]
    or [events:] (in any case) is still read as that key.  Every other
    non-blank, non-comment line is read only as [<tile>: <names>]: it keeps
    the mode, the turn, the positions and the winner, and either leaves the
    events as they are or appends its names to its tile; without a colon, or
    with a left side that [int] rejects, it changes nothing; with a left
    side that [int] reads as a tile and at least one name, its names are
    appended to that tile. *)
Theorem parse_line_events_mode :
  (∀ parsed ln parsed' mode',
     parse_line (parsed, EventsMode) ln = Ok (parsed', mode') →
     mode' = EventsMode)
  ∧ (∀ parsed ln, is_header ln = false →
     ∃ parsed',
       parse_line (parsed, EventsMode) ln = Ok (parsed', EventsMode)
       ∧ turn parsed' = turn parsed
       ∧ positions parsed' = positions parsed
       ∧ winner parsed' = winner parsed
       ∧ (events parsed' = events parsed
          ∨ ∃ lhs rhs tile,
              Py.split1 ":" ln = [lhs; rhs]
              ∧ Py.int (Py.strip lhs) = Ok tile
              ∧ event_names rhs ≠ []
              ∧ events parsed'
                = extend_at tile (event_names rhs) (events parsed)))
  ∧ (∀ parsed ln, is_header ln = false →
     Py.contains ":" ln = false
     ∨ (∃ lhs rhs e, Py.split1 ":" ln = [lhs; rhs]
                     ∧ Py.int (Py.strip lhs) = Raise e) →
     parse_line (parsed, EventsMode) ln = Ok (parsed, EventsMode))
  ∧ (∀ parsed lines, Forall (λ ln, is_header ln = false) lines →
     ∃ parsed',
       parse_lines (parsed, EventsMode) lines = Ok (parsed', EventsMode)
       ∧ turn parsed' = turn parsed
       ∧ positions parsed' = positions parsed)
  ∧ parse_line (default_state, EventsMode) "Player1: 5"
    = Ok (set_position default_state Player1 5, EventsMode)
  ∧ parse_line (default_state, EventsMode) "TURN:Player2"
    = Ok (set_turn default_state Player2, EventsMode)
  ∧ (∀ parsed ln lhs rhs tile,
       skipped ln = false → is_header ln = false →
       Py.split1 ":" ln = [lhs; rhs] → Py.int (Py.strip lhs) = Ok tile →
       parse_line (parsed, EventsMode) ln
       = Ok (if bool_decide (event_names rhs ≠ [])
             then set_events parsed
                    (extend_at tile (event_names rhs) (events parsed))
             else parsed, EventsMode))
  ∧ (∀ parsed key v,
       Py.lower key = "turn" →
       parse_line (parsed, EventsMode) (key +:+ String ":" v)
       = Ok (set_turn parsed (turn_of (Py.strip v)), EventsMode))
  ∧ (∀ parsed key v,
       Py.lower key = "player1" →
       parse_line (parsed, EventsMode) (key +:+ String ":" v)
       = Ok (set_position parsed Player1
               (try_except (n ← Py.int (Py.strip v); Ok (Z.max 0 n)) 0),
             EventsMode))
  ∧ (∀ parsed key v,
       Py.lower key = "player2" →
       parse_line (parsed, EventsMode) (key +:+ String ":" v)
       = Ok (set_position parsed Player2
               (try_except (n ← Py.int (Py.strip v); Ok (Z.max 0 n)) 0),
             EventsMode))
  ∧ (∀ parsed key v,
       Py.lower key = "events" →
       parse_line (parsed, EventsMode) (key +:+ String ":" v)
       = Ok (parsed, EventsMode)).
Proof.
  split_and!;
    [| | | |reflexivity|reflexivity
     |apply parse_line_tile
     |intros; by apply parse_line_turn
     |intros; by apply parse_line_player1
     |intros; by apply parse_line_player2
     |intros; by apply parse_line_events_key].
  - intros parsed ln parsed' mode' E.
    apply parse_line_inv in E as (_ & Hm & _). by apply Hm.
  - intros parsed ln Hh.
    destruct (parse_line_ok (parsed, EventsMode) ln) as [[p1 m1] E].
    destruct (parse_line_not_header _ _ _ _ _ Hh E) as (Ht & Hp & ->).
    destruct (parse_line_inv _ _ _ _ _ E) as (Hw & _ & He).
    exists p1. by split_and!.
  - intros parsed ln Hh Hskip.
    unfold is_header in Hh.
    apply orb_false_elim in Hh as [Hh He].
    apply orb_false_elim in Hh as [Hh H2].
    apply orb_false_elim in Hh as [Ht H1].
    unfold parse_line. rewrite Ht, H1, H2, He.
    destruct (_ || _); [done|]. rewrite bool_decide_eq_true_2 by done.
    destruct Hskip as [->|(lhs & rhs & e & Hs & Hi)]; [done|].
    destruct (negb _); [done|]. rewrite Hs. simpl. by rewrite Hi.
  - intros parsed lines Hl. by apply parse_lines_not_header.
Qed.

Lemma parse_line_events_mode_witness :
  parse_line (default_state, EventsMode) "Treasure: 12"
  = Ok (default_state, EventsMode)
  ∧ parse_line (default_state, EventsMode) "no colon here"
    = Ok (default_state, EventsMode)
  ∧ parse_line (default_state, EventsMode) "5: treasure, Portal"
    = Ok (set_events default_state {[ 5 := ["Treasure"; "Portal"] ]},
          EventsMode)
  ∧ parse_line (set_position default_state Player1 2, EventsMode)
      "PLAYER1: 5"
    = Ok (set_position default_state Player1 5, EventsMode).
Proof.
  destruct parse_line_events_mode
    as (_ & _ & Hskip & _ & _ & _ & Htile & _ & Hp1 & _).
  split_and!.
  - apply Hskip; [reflexivity|]. right. by exists "Treasure", " 12", ValueError.
  - apply Hskip; [reflexivity|]. by left.
  - exact (Htile default_state "5: treasure, Portal" "5" " treasure, Portal" 5
             eq_refl eq_refl eq_refl eq_refl).
  - exact (Hp1 (set_position default_state Player1 2) "PLAYER1" " 5" eq_refl).
Defined.

(** C7, as stated, fails: after [Events:] a [Player1: 5] line still sets the
    position of Player1. *)
Lemma events_mode_not_exclusive :
  parse_game_file (Text (Py.join (String Py.LF "") ["Events:"]))
    = Ok default_state
  ∧ parse_game_file
      (Text (Py.join (String Py.LF "") ["Events:"; "Player1: 5"]))
    = Ok (set_position default_state Player1 5)
  ∧ ¬ (∀ parsed ln parsed' mode',
         ln ≠ "" → Py.startswith ln "#" = false →
         parse_line (parsed, EventsMode) ln = Ok (parsed', mode') →
         positions parsed' = positions parsed).
Proof.
  split_and!; [reflexivity..|].
  intros H.
  specialize (H default_state "Player1: 5"
                (set_position default_state Player1 5) EventsMode).
  by specialize (H ltac:(done) eq_refl eq_refl).
Qed.

(** ** The tiles of the events table *)

(** Where the entries of a parsed events table come from. *)
Lemma parse_lines_events all lines : ∀ acc acc',
  lines ⊆ all →
  parse_lines acc lines = Ok acc' →
  ∀ tile evs, events acc'.1 !! tile = Some evs →
    events acc.1 !! tile = Some evs
    ∨ (evs ≠ [] ∧ ∃ ln lhs rhs,
         ln ∈ all ∧ Py.split1 ":" ln = [lhs; rhs]
         ∧ Py.int (Py.strip lhs) = Ok tile).
Proof.
  induction lines as [|ln lines IH]; intros [parsed mode] acc' Hsub; simpl.
  - intros [= <-]. by left.
  - destruct (parse_line_ok (parsed, mode) ln) as [[p1 m1] E]. rewrite E. simpl.
    intros E' tile evs Hl.
    destruct (IH (p1, m1) acc' ltac:(set_solver) E' tile evs Hl)
      as [Hl1|?]; [|by right]. simpl in Hl1.
    destruct (parse_line_inv _ _ _ _ _ E)
      as (_ & _ & [He|(lhs & rhs & t & Hs & Hi & Hne & He)]);
      rewrite He in Hl1; [by left|].
    rewrite lookup_extend_at in Hl1. case_decide; [|by left].
    simplify_eq. right. split.
    + intros [_ ?]%app_eq_nil. done.
    + exists ln, lhs, rhs. split_and!; [set_solver|done..].
Qed.

(** C10, as the code has it.  The parser does not check tile numbers: every
    key of the parsed events table is the integer that [int] reads on the
    left of the first colon of some line of the file, whatever its value,
    and the list stored for it is not empty. *)
Theorem parse_events_keys text s tile evs :
  parse_game_file (Text text) = Ok s →
  events s !! tile = Some evs →
  evs ≠ []
  ∧ ∃ ln lhs rhs,
      ln ∈ Py.strip <$> Py.readlines text
      ∧ Py.split1 ":" ln = [lhs; rhs]
      ∧ Py.int (Py.strip lhs) = Ok tile.
Proof.
  unfold parse_game_file.
  destruct (parse_lines_ok (Py.strip <$> Py.readlines text)
              (default_state, NoMode)) as [[parsed mode] E].
  rewrite E. intros [= <-] Hl.
  pose proof (parse_lines_winner _ _ _ E) as Hw.
  destruct (finish_positions parsed Hw) as (_ & _ & He & _).
  simpl in He, Hl. rewrite He in Hl.
  destruct (parse_lines_events _ _ _ _ (reflexivity _) E tile evs Hl)
    as [Hd|?]; [|done].
  simpl in Hd. by rewrite lookup_empty in Hd.
Qed.

Lemma parse_events_keys_witness :
  ["Treasure"] ≠ []
  ∧ ∃ ln lhs rhs,
      ln ∈ Py.strip <$> Py.readlines
             (Py.join (String Py.LF "") ["Events:"; "-3: treasure"])
      ∧ Py.split1 ":" ln = [lhs; rhs]
      ∧ Py.int (Py.strip lhs) = Ok (-3).
Proof.
  apply (parse_events_keys
           (Py.join (String Py.LF "") ["Events:"; "-3: treasure"])
           (set_events default_state {[ -3 := ["Treasure"] ]})).
  - reflexivity.
  - reflexivity.
Defined.

(** C10, as stated, fails: tile 0, a negative tile and a tile beyond the
    last one are all stored. *)
Lemma parse_events_keys_out_of_range :
  parse_game_file
    (Text (Py.join (String Py.LF "")
             ["Events:"; "0: Treasure"; "-3: Portal"; "500: Treasure"]))
  = Ok (set_events default_state
          {[ 0 := ["Treasure"]; -3 := ["Portal"]; 500 := ["Treasure"] ]})
  ∧ ¬ (∀ file s tile,
         parse_game_file file = Ok s → is_Some (events s !! tile) →
         1 ≤ tile ≤ LAST_TILE).
Proof.
  split; [reflexivity|].
  intros H.
  specialize (H (Text (Py.join (String Py.LF "") ["Events:"; "0: Treasure"]))
                (set_events default_state {[ 0 := ["Treasure"] ]}) 0
                eq_refl ltac:(by eexists)).
  lia.
Qed.

(** ** Printing and reading integers *)

Lemma digit_val_digit_char m :
  0 ≤ m < 10 → Py.digit_val (Py.digit_char m) = Some m.
Proof.
  intros Hm.
  assert (m = 0 ∨ m = 1 ∨ m = 2 ∨ m = 3 ∨ m = 4 ∨ m = 5 ∨ m = 6 ∨ m = 7
          ∨ m = 8 ∨ m = 9) as Hc by lia.
  repeat destruct Hc as [->|Hc]; try reflexivity. by subst.
Qed.

Lemma is_digit_digit_char m : 0 ≤ m < 10 → is_digit (Py.digit_char m) = true.
Proof. intros Hm. unfold is_digit. by rewrite digit_val_digit_char. Qed.

Lemma is_digit_facts c :
  is_digit c = true →
  Py.is_space c = false ∧ Py.lower_char c = c ∧ c ≠ "_"%char
  ∧ c ≠ "-"%char ∧ c ≠ "+"%char ∧ c ≠ ":"%char ∧ c ≠ "#"%char
  ∧ c ≠ Py.LF ∧ c ≠ Py.CR ∧ c ≠ "t"%char ∧ c ≠ "p"%char ∧ c ≠ "e"%char.
Proof.
  destruct c as [[] [] [] [] [] [] [] []]; vm_compute; intros ?;
    try discriminate; by split_and!.
Qed.

Lemma int_digits_digit a c d s :
  Py.digit_val c = Some d →
  Py.int_digits a (String c s) = Py.int_digits (10 * a + d) s.
Proof.
  intros Hd. simpl. rewrite Hd.
  rewrite bool_decide_eq_false_2; [done|].
  intros ->. by vm_compute in Hd.
Qed.

Lemma str_digits_read fuel : ∀ n rest,
  0 ≤ n < 2 ^ Z.of_nat fuel →
  ∃ k, 0 ≤ k ∧ ∀ a,
    Py.int_digits a (Py.str_digits fuel n rest)
    = Py.int_digits (a * 10 ^ k + n) rest.
Proof.
  induction fuel as [|fuel IH]; intros n rest Hn.
  - exists 0. split; [done|]. intros a. simpl in *.
    by replace (a * 10 ^ 0 + n) with a by lia.
  - assert (0 ≤ n mod 10 < 10) as Hm by (apply Z.mod_pos_bound; lia).
    pose proof (Z.div_mod n 10 ltac:(lia)) as Hdm.
    simpl. destruct (Z.eqb_spec (n / 10) 0) as [Hz|Hz].
    + exists 1. split; [done|]. intros a.
      rewrite (int_digits_digit a _ (n mod 10)) by by apply digit_val_digit_char.
      f_equal. lia.
    + destruct (IH (n / 10) (String (Py.digit_char (n mod 10)) rest))
        as (k & Hk & IHk).
      { rewrite Nat2Z.inj_succ, Z.pow_succ_r in Hn by lia.
        split; [apply Z.div_pos; lia|].
        apply Z.div_lt_upper_bound; lia. }
      exists (k + 1). split; [lia|]. intros a. rewrite IHk.
      rewrite (int_digits_digit _ _ (n mod 10)) by by apply digit_val_digit_char.
      f_equal. rewrite Z.pow_add_r by lia. lia.
Qed.

Lemma str_digits_S fuel n acc :
  Py.str_digits (S fuel) n acc
  = if n / 10 =? 0 then String (Py.digit_char (n mod 10)) acc
    else Py.str_digits fuel (n / 10) (String (Py.digit_char (n mod 10)) acc).
Proof. reflexivity. Qed.

Lemma str_digits_chars fuel : ∀ n rest,
  0 ≤ n → all_chars is_digit rest = true →
  all_chars is_digit (Py.str_digits (S fuel) n rest) = true
  ∧ Py.str_digits (S fuel) n rest ≠ "".
Proof.
  induction fuel as [|fuel IH]; intros n rest Hn Hrest;
    assert (0 ≤ n mod 10 < 10) as Hm by (apply Z.mod_pos_bound; lia);
    rewrite str_digits_S.
  - assert (all_chars is_digit (String (Py.digit_char (n mod 10)) rest) = true)
      by (cbn [all_chars]; by rewrite is_digit_digit_char, Hrest).
    by case_match.
  - case_match.
    + cbn [all_chars]. by rewrite is_digit_digit_char, Hrest.
    + apply IH; [apply Z.div_pos; lia|].
      cbn [all_chars]. by rewrite is_digit_digit_char, Hrest.
Qed.

Lemma log2_fuel n : 0 ≤ n → n < 2 ^ Z.of_nat (S (Z.to_nat (Z.log2 n))).
Proof.
  intros Hn. rewrite Nat2Z.inj_succ, Z2Nat.id by apply Z.log2_nonneg.
  destruct (decide (n = 0)) as [->|]; [done|].
  apply Z.log2_spec. lia.
Qed.

(** The shape of [str n]: digits, after a minus sign when [n] is negative. *)
Lemma str_shape n :
  ∃ ds, all_chars is_digit ds = true ∧ ds ≠ ""
        ∧ Py.int_digits 0 ds = Some (Z.abs n)
        ∧ Py.str n = if n <? 0 then String "-" ds else ds.
Proof.
  unfold Py.str. destruct (Z.ltb_spec n 0).
  - eexists. split_and!; [..|done].
    + by apply str_digits_chars; [lia|].
    + by apply str_digits_chars; [lia|].
    + destruct (str_digits_read (S (Z.to_nat (Z.log2 (- n)))) (- n) "")
        as (k & _ & ->); [split; [lia|apply log2_fuel; lia]|].
      simpl. f_equal. lia.
  - eexists. split_and!; [..|done].
    + by apply str_digits_chars; [lia|].
    + by apply str_digits_chars; [lia|].
    + destruct (str_digits_read (S (Z.to_nat (Z.log2 n))) n "")
        as (k & _ & ->); [split; [lia|apply log2_fuel; lia]|].
      simpl. f_equal. lia.
Qed.

Lemma int_magnitude_digits ds n :
  all_chars is_digit ds = true → ds ≠ "" →
  Py.int_digits 0 ds = Some n → Py.int_magnitude ds = Some n.
Proof.
  destruct ds as [|c ds]; [done|]. cbn [all_chars]. unfold is_digit.
  intros [Hc _]%andb_prop _.
  destruct (Py.digit_val c) as [d|] eqn:Hd; [|done].
  rewrite (int_digits_digit 0 c d ds Hd). unfold Py.int_magnitude.
  rewrite Hd. by replace (10 * 0 + d) with d by lia.
Qed.

(** [int] reads back what [str] prints, also with blanks around it. *)
Lemma int_str s n : Py.strip s = Py.str n → Py.int s = Ok n.
Proof.
  intros Hs. unfold Py.int. rewrite Hs.
  destruct (str_shape n) as (ds & Hds & Hne & Hval & ->).
  apply (int_magnitude_digits ds _ Hds Hne) in Hval.
  destruct (Z.ltb_spec n 0).
  - rewrite bool_decide_eq_true_2 by done. rewrite Hval. simpl.
    f_equal. lia.
  - destruct ds as [|c ds]; [done|].
    apply andb_prop in Hds as [Hc _].
    destruct (is_digit_facts c Hc) as (_ & _ & _ & Hm & Hp & _).
    rewrite !bool_decide_eq_false_2 by done. rewrite Hval.
    f_equal. lia.
Qed.

(** ** Blanks, separators and line breaks *)

Lemma all_chars_contains P s c :
  all_chars P s = true → P c = false → Py.contains c s = false.
Proof.
  intros Hs Hc. induction s as [|a s IH]; [done|].
  apply andb_prop in Hs as [Ha Hs]. simpl. rewrite (IH Hs), orb_false_r.
  apply bool_decide_eq_false_2. intros ->. congruence.
Qed.

Lemma contains_app c a b :
  Py.contains c (a +:+ b) = Py.contains c a || Py.contains c b.
Proof.
  induction a as [|x a IH]; [done|]. simpl. by rewrite IH, orb_assoc.
Qed.

Lemma rstrip_cons c s :
  Py.rstrip s ≠ "" → Py.rstrip (String c s) = String c (Py.rstrip s).
Proof. intros H. simpl. by destruct (Py.rstrip s). Qed.

Lemma rstrip_app a b :
  Py.rstrip b ≠ "" → Py.rstrip (a +:+ b) = a +:+ Py.rstrip b.
Proof.
  intros Hb. induction a as [|c a IH]; [done|].
  change (String c a +:+ b) with (String c (a +:+ b)).
  rewrite rstrip_cons; rewrite IH; [done|]. by destruct a.
Qed.

Lemma rstrip_fix_app a b :
  b ≠ "" → Py.rstrip b = b → Py.rstrip (a +:+ b) = a +:+ b.
Proof. intros Hne Hb. rewrite rstrip_app; by rewrite Hb. Qed.

Lemma rstrip_all_chars s :
  all_chars (λ c, negb (Py.is_space c)) s = true → Py.rstrip s = s.
Proof.
  induction s as [|c s IH]; [done|]. intros [Hc Hs]%andb_prop.
  simpl. rewrite (IH Hs). apply negb_true_iff in Hc. rewrite Hc.
  by destruct s.
Qed.

Lemma rstrip_space s c :
  Py.is_space c = true → Py.rstrip (s +:+ String c "") = Py.rstrip s.
Proof.
  intros Hc. induction s as [|d s IH]; simpl.
  - by rewrite Hc.
  - by rewrite IH.
Qed.

Lemma lstrip_cons c s :
  Py.is_space c = false → Py.lstrip (String c s) = String c s.
Proof. intros H. simpl. by rewrite H. Qed.

Lemma lstrip_fix_nonempty s :
  s ≠ "" → Py.lstrip s = s →
  ∃ c s', s = String c s' ∧ Py.is_space c = false.
Proof.
  destruct s as [|c s]; [done|]. intros _ H. exists c, s. split; [done|].
  destruct (Py.is_space c) eqn:Hc; [|done]. exfalso.
  simpl in H. rewrite Hc in H.
  assert (∀ x, String.length (Py.lstrip x) ≤ String.length x)%nat as Hlen.
  { clear. induction x as [|a x IH]; simpl; [done|].
    destruct (Py.is_space a); simpl; lia. }
  specialize (Hlen s). rewrite H in Hlen. simpl in Hlen. lia.
Qed.

Lemma lstrip_space c s :
  Py.is_space c = true → Py.lstrip (String c s) = Py.lstrip s.
Proof. intros H. simpl. by rewrite H. Qed.

Lemma lstrip_app_space s c :
  Py.is_space c = true →
  Py.lstrip (s +:+ String c "")
  = if bool_decide (Py.lstrip s = "") then "" else Py.lstrip s +:+ String c "".
Proof.
  intros Hc. induction s as [|d s IH]; simpl.
  - by rewrite Hc.
  - destruct (Py.is_space d); [done|]. by rewrite bool_decide_eq_false_2.
Qed.

(** The terminator that [readlines] leaves on a line is stripped. *)
Lemma strip_line s : Py.strip (s +:+ String Py.LF "") = Py.strip s.
Proof.
  unfold Py.strip. rewrite lstrip_app_space by done.
  case_bool_decide as H; [by rewrite H|]. by apply rstrip_space.
Qed.

Lemma strip_fix s : Py.lstrip s = s → Py.rstrip s = s → Py.strip s = s.
Proof. unfold Py.strip. by intros -> ->. Qed.

Lemma strip_blank_fix s :
  Py.lstrip s = s → Py.rstrip s = s → Py.strip (String " " s) = s.
Proof. intros Hl Hr. unfold Py.strip. rewrite lstrip_space by done. by rewrite Hl. Qed.

(** [str n] has no blank and no separator in it. *)
Lemma str_facts n :
  Py.str n ≠ "" ∧ Py.lstrip (Py.str n) = Py.str n
  ∧ Py.rstrip (Py.str n) = Py.str n
  ∧ Py.contains ":" (Py.str n) = false
  ∧ Py.contains Py.LF (Py.str n) = false
  ∧ Py.contains Py.CR (Py.str n) = false
  ∧ ∃ c s, Py.str n = String c s ∧ (is_digit c = true ∨ c = "-"%char).
Proof.
  destruct (str_shape n) as (ds & Hds & Hne & _ & ->).
  assert (Py.rstrip ds = ds) as Hr.
  { apply rstrip_all_chars. clear Hne.
    induction ds as [|c ds IH]; [done|]. apply andb_prop in Hds as [Hc Hds].
    cbn [all_chars]. rewrite (IH Hds).
    by destruct (is_digit_facts c Hc) as (-> & _). }
  assert (∀ c, is_digit c = false → Py.contains c ds = false) as Hc
    by (intros c; by apply all_chars_contains).
  destruct ds as [|d ds]; [done|]. clear Hne.
  pose proof Hds as [Hd _]%andb_prop.
  destruct (is_digit_facts d Hd) as (Hsp & _).
  destruct (n <? 0).
  - split_and!; try done.
    + by rewrite rstrip_cons; rewrite Hr.
    + change (Py.contains ":" (String "-" (String d ds)))
        with (Py.contains ":" (String d ds)). by apply Hc.
    + change (Py.contains Py.LF (String "-" (String d ds)))
        with (Py.contains Py.LF (String d ds)). by apply Hc.
    + change (Py.contains Py.CR (String "-" (String d ds)))
        with (Py.contains Py.CR (String d ds)). by apply Hc.
    + eauto.
  - split_and!; try done.
    + by apply lstrip_cons.
    + by apply Hc.
    + by apply Hc.
    + by apply Hc.
    + eauto.
Qed.

Lemma int_str_blank n : Py.int (Py.strip (String " " (Py.str n))) = Ok n.
Proof.
  destruct (str_facts n) as (_ & Hl & Hr & _).
  apply int_str. rewrite strip_blank_fix by done. by apply strip_fix.
Qed.

(** ** Lines *)

Lemma no_break_cons c s :
  no_break (String c s) → c ≠ Py.LF ∧ c ≠ Py.CR ∧ no_break s.
Proof.
  unfold no_break. simpl. intros [[H1 H2]%orb_false_elim [H3 H4]%orb_false_elim].
  apply bool_decide_eq_false_1 in H1, H3. done.
Qed.

Lemma no_break_app a b : no_break a → no_break b → no_break (a +:+ b).
Proof. unfold no_break. rewrite !contains_app. by intros [-> ->] [-> ->]. Qed.

Lemma readlines_cons c s :
  c ≠ Py.LF → c ≠ Py.CR →
  Py.readlines (String c s)
  = match Py.readlines s with
    | [] => [String c ""]
    | l :: ls => String c l :: ls
    end.
Proof. intros H1 H2. simpl. by rewrite !bool_decide_eq_false_2. Qed.

Lemma readlines_line a rest :
  no_break a →
  Py.readlines (a +:+ String Py.LF rest)
  = (a +:+ String Py.LF "") :: Py.readlines rest.
Proof.
  induction a as [|c a IH]; intros Ha.
  - done.
  - apply no_break_cons in Ha as (H1 & H2 & Ha).
    change (String c a +:+ String Py.LF rest)
      with (String c (a +:+ String Py.LF rest)).
    rewrite readlines_cons by done. by rewrite IH.
Qed.

Lemma readlines_last a : no_break a → a ≠ "" → Py.readlines a = [a].
Proof.
  induction a as [|c a IH]; intros Ha Hne; [done|].
  apply no_break_cons in Ha as (H1 & H2 & Ha).
  rewrite readlines_cons by done.
  destruct a as [|d a]; [done|]. by rewrite IH.
Qed.

Lemma join_cons sep l l' ls :
  Py.join sep (l :: l' :: ls) = l +:+ sep +:+ Py.join sep (l' :: ls).
Proof. reflexivity. Qed.

(** Reading back the lines of a text joined with line feeds: the lines come
    back once stripped, when none of them has a line break or a blank at
    either end and the last one is not empty. *)
Lemma strip_readlines_join lines :
  Forall (λ l, no_break l ∧ Py.strip l = l) lines →
  last lines ≠ Some "" →
  Py.strip <$> Py.readlines (Py.join (String Py.LF "") lines) = lines.
Proof.
  induction lines as [|l [|l' ls] IH]; intros Hl Hlast.
  - done.
  - apply Forall_cons in Hl as [[Hb Hs] _]. simpl.
    rewrite readlines_last; [simpl; by rewrite Hs|done|].
    intros ->. by apply Hlast.
  - apply Forall_cons in Hl as [[Hb Hs] Hl]. rewrite join_cons.
    change (l +:+ String Py.LF "" +:+ Py.join (String Py.LF "") (l' :: ls))
      with (l +:+ String Py.LF (Py.join (String Py.LF "") (l' :: ls))).
    rewrite readlines_line by done. rewrite fmap_cons, strip_line, Hs.
    f_equal. by apply IH.
Qed.

(** ** The names of an event line *)

Lemma split_cons_ne sep c s :
  c ≠ sep →
  Py.split sep (String c s)
  = match Py.split sep s with
    | [] => [String c ""]
    | h :: t => String c h :: t
    end.
Proof. intros H. simpl. by rewrite bool_decide_eq_false_2. Qed.

Lemma split_no_sep sep s : Py.contains sep s = false → Py.split sep s = [s].
Proof.
  induction s as [|c s IH]; [done|]. simpl.
  intros [Hc Hs]%orb_false_elim. rewrite Hc. by rewrite (IH Hs).
Qed.

Lemma split_app sep a b :
  Py.contains sep a = false →
  Py.split sep (a +:+ String sep b) = a :: Py.split sep b.
Proof.
  induction a as [|c a IH]; simpl.
  - intros _. by rewrite bool_decide_eq_true_2.
  - intros [Hc Ha]%orb_false_elim. rewrite Hc. by rewrite (IH Ha).
Qed.

Lemma split_names evs :
  evs ≠ [] → Forall stored_name evs →
  Py.split "," (String " " (Py.join ", " evs)) = String " " <$> evs.
Proof.
  induction evs as [|e [|e' evs] IH]; intros Hne Hevs; [done|..].
  - apply Forall_cons in Hevs as [(_ & _ & _ & _ & Hc & _) _].
    simpl. by rewrite (split_no_sep _ _ Hc).
  - apply Forall_cons in Hevs as [(_ & _ & _ & _ & Hc & _) Hevs].
    rewrite join_cons.
    change (String " " (e +:+ ", " +:+ Py.join ", " (e' :: evs)))
      with (String " " e +:+ String "," (String " " (Py.join ", " (e' :: evs)))).
    rewrite split_app by done. rewrite fmap_cons. f_equal. by apply IH.
Qed.

Lemma event_names_join evs :
  evs ≠ [] → Forall stored_name evs →
  event_names (String " " (Py.join ", " evs)) = evs.
Proof.
  intros Hne Hevs. unfold event_names. rewrite split_names by done.
  clear Hne. induction Hevs as [|e evs He Hevs IH]; [done|].
  destruct He as (Hn & Hl & Hr & Hcap & _).
  rewrite fmap_cons, filter_cons.
  rewrite decide_True by (by rewrite strip_blank_fix).
  rewrite fmap_cons, strip_blank_fix, Hcap by done. f_equal. apply IH.
Qed.

Lemma join_names_facts evs :
  evs ≠ [] → Forall stored_name evs →
  Py.join ", " evs ≠ "" ∧ Py.rstrip (Py.join ", " evs) = Py.join ", " evs
  ∧ no_break (Py.join ", " evs).
Proof.
  induction evs as [|e [|e' evs] IH]; intros Hne Hevs; [done|..].
  - apply Forall_cons in Hevs as [(? & ? & ? & ? & ? & ? & ?) _]. by simpl.
  - apply Forall_cons in Hevs as [(? & ? & ? & ? & ? & ? & ?) Hevs].
    destruct (IH ltac:(done) Hevs) as (IH1 & IH2 & IH3).
    rewrite join_cons. split_and!.
    + by destruct e.
    + apply rstrip_fix_app; [done|]. by apply (rstrip_fix_app ", ").
    + apply no_break_app; [done|]. by apply (no_break_app ", ").
Qed.

(** ** Reading back what [write_game_file] writes *)

Lemma numeric_line_tests c s :
  is_digit c = true ∨ c = "-"%char →
  bool_decide (String c s = "") || Py.startswith (String c s) "#" = false
  ∧ is_header (String c s) = false.
Proof.
  unfold is_header. intros [Hc| ->]; [|done].
  destruct (is_digit_facts c Hc)
    as (_ & Hlow & _ & _ & _ & _ & Hh & _ & _ & Ht & Hp & He).
  simpl. rewrite Hlow. by rewrite !bool_decide_eq_false_2.
Qed.

Lemma parse_line_event_line parsed tile evs :
  evs ≠ [] → Forall stored_name evs →
  parse_line (parsed, EventsMode) (Py.str tile +:+ ": " +:+ Py.join ", " evs)
  = Ok (set_events parsed (extend_at tile evs (events parsed)), EventsMode).
Proof.
  intros Hne Hevs.
  destruct (str_facts tile) as (_ & Hl & Hr & Hcolon & _ & _ & c & s & Hshape & Hc).
  change (Py.str tile +:+ ": " +:+ Py.join ", " evs)
    with (Py.str tile +:+ String ":" (String " " (Py.join ", " evs))).
  set (rhs := String " " (Py.join ", " evs)).
  destruct (numeric_line_tests c (s +:+ String ":" rhs) Hc) as [Hskip Hhead].
  change (String c (s +:+ String ":" rhs))
    with (String c s +:+ String ":" rhs) in Hskip, Hhead.
  rewrite <- Hshape in Hskip, Hhead.
  unfold is_header in Hhead.
  apply orb_false_elim in Hhead as [Hhead He].
  apply orb_false_elim in Hhead as [Hhead H2].
  apply orb_false_elim in Hhead as [Ht H1].
  unfold parse_line. rewrite Hskip, Ht, H1, H2, He.
  rewrite bool_decide_eq_true_2 by done.
  rewrite contains_app. cbn [Py.contains].
  rewrite bool_decide_eq_true_2 by done. rewrite orb_true_r. cbn [negb orb].
  rewrite split1_app by done. cbn [Py.unpack2 mbind result_bind].
  rewrite (int_str (Py.strip (Py.str tile)) tile)
    by (by rewrite !(strip_fix _ Hl Hr)).
  subst rhs. rewrite event_names_join by done.
  by rewrite bool_decide_eq_true_2.
Qed.

Lemma parse_line_turn_written parsed mode t :
  parse_line (parsed, mode) ("Turn: " +:+ player_name t)
  = Ok (set_turn parsed t, mode).
Proof. by destruct t. Qed.

Lemma parse_line_player1_written parsed mode n :
  0 ≤ n →
  parse_line (parsed, mode) ("Player1: " +:+ Py.str n)
  = Ok (set_position parsed Player1 n, mode).
Proof.
  intros Hn.
  change ("Player1: " +:+ Py.str n)
    with ("Player1" +:+ String ":" (String " " (Py.str n))).
  rewrite parse_line_player1 by done. rewrite int_str_blank. simpl.
  by rewrite Z.max_r.
Qed.

Lemma parse_line_player2_written parsed mode n :
  0 ≤ n →
  parse_line (parsed, mode) ("Player2: " +:+ Py.str n)
  = Ok (set_position parsed Player2 n, mode).
Proof.
  intros Hn.
  change ("Player2: " +:+ Py.str n)
    with ("Player2" +:+ String ":" (String " " (Py.str n))).
  rewrite parse_line_player2 by done. rewrite int_str_blank. simpl.
  by rewrite Z.max_r.
Qed.

Lemma parse_lines_cons_ok acc ln acc' lines :
  parse_line acc ln = Ok acc' →
  parse_lines acc (ln :: lines) = parse_lines acc' lines.
Proof. intros H. simpl. by rewrite H. Qed.

Lemma parse_lines_app l1 : ∀ acc l2,
  parse_lines acc (l1 ++ l2)
  = (acc' ← parse_lines acc l1; parse_lines acc' l2).
Proof.
  induction l1 as [|ln l1 IH]; intros acc l2; [done|]. simpl.
  destruct (parse_line acc ln); simpl; [apply IH|done].
Qed.

(** The event lines, read in events mode, extend the table tile by tile. *)
Lemma parse_lines_event_lines (d : gmap Z (list string)) tiles : ∀ parsed,
  stored_events d → (∀ t, t ∈ tiles → is_Some (d !! t)) →
  parse_lines (parsed, EventsMode) (event_line d <$> tiles)
  = Ok (set_events parsed
          (foldl (λ acc t, extend_at t (d !!! t) acc) (events parsed) tiles),
        EventsMode).
Proof.
  intros parsed Hd. revert parsed.
  induction tiles as [|t tiles IH]; intros parsed Hin.
  - by destruct parsed.
  - destruct (Hin t ltac:(left)) as [evs Ht].
    destruct (Hd t evs Ht) as [Hne Hevs].
    rewrite fmap_cons. unfold event_line at 1.
    rewrite (lookup_total_correct _ _ _ Ht).
    rewrite (parse_lines_cons_ok _ _ _ _
               (parse_line_event_line parsed t evs Hne Hevs)).
    rewrite IH by (intros; apply Hin; by right).
    simpl. by rewrite (lookup_total_correct _ _ _ Ht).
Qed.

Lemma foldl_extend_at_lookup (d : gmap Z (list string)) tiles :
  NoDup tiles → ∀ (acc : gmap Z (list string)) t,
  foldl (λ acc t, extend_at t (d !!! t) acc) acc tiles !! t
  = if decide (t ∈ tiles) then Some (default [] (acc !! t) ++ d !!! t)
    else acc !! t.
Proof.
  induction 1 as [|x tiles Hx Hnd IH]; intros acc t; simpl.
  - done.
  - rewrite IH, !lookup_extend_at.
    destruct (decide (x = t)) as [->|Hne].
    + rewrite decide_False by done. by rewrite decide_True by left.
    + destruct (decide (t ∈ tiles)).
      * by rewrite decide_True by (by right).
      * rewrite decide_False; [done|]. by intros [->|]%elem_of_cons.
Qed.

Lemma elem_of_sorted_tiles (d : gmap Z (list string)) t :
  t ∈ sorted_tiles d ↔ is_Some (d !! t).
Proof.
  unfold sorted_tiles. rewrite merge_sort_Permutation.
  rewrite list_elem_of_fmap. split.
  - intros ([k v] & -> & Hkv). apply elem_of_map_to_list in Hkv. by eexists.
  - intros [v Hv]. exists (t, v). split; [done|]. by apply elem_of_map_to_list.
Qed.

Lemma NoDup_sorted_tiles (d : gmap Z (list string)) : NoDup (sorted_tiles d).
Proof.
  unfold sorted_tiles. rewrite merge_sort_Permutation.
  apply NoDup_fst_map_to_list.
Qed.

Lemma foldl_extend_at_sorted_tiles (d : gmap Z (list string)) :
  foldl (λ acc t, extend_at t (d !!! t) acc) ∅ (sorted_tiles d) = d.
Proof.
  apply map_eq. intros t.
  rewrite (foldl_extend_at_lookup d _ (NoDup_sorted_tiles d)).
  rewrite lookup_empty. simpl. case_decide as Ht.
  - apply elem_of_sorted_tiles in Ht as [evs Ht].
    by rewrite (lookup_total_correct _ _ _ Ht).
  - destruct (d !! t) eqn:E; [|done].
    exfalso. apply Ht, elem_of_sorted_tiles. by eexists.
Qed.


Lemma write_game_file_lines st :
  write_game_file st = Py.join (String Py.LF "") (written_lines st).
Proof.
  unfold write_game_file, written_lines. case_bool_decide as He; [done|].
  rewrite He. unfold sorted_tiles.
  by rewrite map_to_list_empty.
Qed.

Lemma event_line_tidy (d : gmap Z (list string)) t :
  stored_events d → is_Some (d !! t) →
  no_break (event_line d t) ∧ Py.strip (event_line d t) = event_line d t
  ∧ event_line d t ≠ "".
Proof.
  intros Hd [evs Ht]. destruct (Hd t evs Ht) as [Hne Hevs].
  unfold event_line. rewrite (lookup_total_correct _ _ _ Ht).
  destruct (str_facts t) as (Hs & Hl & Hr & _ & Hlf & Hcr & c & s & Hshape & Hc).
  destruct (join_names_facts evs Hne Hevs) as (Hj1 & Hj2 & Hj3).
  split_and!.
  - apply no_break_app; [done|]. by apply (no_break_app ": ").
  - apply strip_fix.
    + rewrite Hshape.
      apply (lstrip_cons c (s +:+ ": " +:+ Py.join ", " evs)).
      destruct Hc as [Hc| ->]; [|done]. by destruct (is_digit_facts c Hc).
    + apply rstrip_fix_app; [done|]. by apply (rstrip_fix_app ": ").
  - rewrite Hshape. done.
Qed.

Lemma written_lines_tidy st :
  stored_events (events st) →
  Forall (λ l, no_break l ∧ Py.strip l = l) (written_lines st)
  ∧ last (written_lines st) ≠ Some "".
Proof.
  intros Hd. unfold written_lines. split.
  - apply Forall_app. split.
    + assert (∀ n, no_break (Py.str n)) as Hnb
        by (intros n; by destruct (str_facts n) as (_ & _ & _ & _ & ? & ? & _)).
      assert (∀ p n, Py.lstrip (String "P" p) = String "P" p →
                no_break (String "P" p) →
                no_break (String "P" p +:+ Py.str n)
                ∧ Py.strip (String "P" p +:+ Py.str n)
                  = String "P" p +:+ Py.str n) as Hpos.
      { intros p n Hp Hb. destruct (str_facts n) as (? & ? & ? & _).
        split; [by apply no_break_app|].
        apply strip_fix; [done|]. by apply rstrip_fix_app. }
      repeat apply Forall_cons_2; [..|done|done|apply Forall_nil_2].
      * by destruct (turn st).
      * by apply (Hpos "layer1: ").
      * by apply (Hpos "layer2: ").
    + apply Forall_fmap, Forall_forall. intros t Ht. simpl.
      apply elem_of_sorted_tiles in Ht.
      by destruct (event_line_tidy _ t Hd Ht) as (? & ? & _).
  - rewrite last_app, fmap_last.
    destruct (last (sorted_tiles (events st))) as [t|] eqn:Hlast; [|done].
    simpl. intros [= Ht].
    assert (t ∈ sorted_tiles (events st)) as Hin.
    { apply last_Some in Hlast as [l' ->]. set_solver. }
    apply elem_of_sorted_tiles in Hin.
    by destruct (event_line_tidy _ t Hd Hin) as (_ & _ & ?).
Qed.

Lemma parse_line_blank parsed mode :
  parse_line (parsed, mode) "" = Ok (parsed, mode).
Proof. reflexivity. Qed.

Lemma parse_line_events_written parsed mode :
  parse_line (parsed, mode) "Events:" = Ok (parsed, EventsMode).
Proof. reflexivity. Qed.


(** ** What the parser stores is in stored form *)

Lemma char_case_facts c :
  Py.is_space (Py.lower_char c) = Py.is_space c
  ∧ Py.is_space (Py.upper_char c) = Py.is_space c
  ∧ Py.lower_char (Py.lower_char c) = Py.lower_char c
  ∧ Py.upper_char (Py.upper_char c) = Py.upper_char c.
Proof. destruct c as [[] [] [] [] [] [] [] []]; by vm_compute. Qed.

Lemma upper_char_not_letter c d :
  Py.is_upper d = false → Py.is_lower d = false →
  Py.upper_char c = d ↔ c = d.
Proof.
  intros Hu Hl. split.
  - intros <-. unfold Py.upper_char in *.
    destruct (Py.is_lower c) eqn:Hc; [|done].
    exfalso. revert Hc Hu Hl.
    destruct c as [[] [] [] [] [] [] [] []]; by vm_compute.
  - intros ->. unfold Py.upper_char. by rewrite Hl.
Qed.

Lemma contains_capitalize c s :
  Py.is_upper c = false → Py.is_lower c = false →
  Py.contains c (Py.capitalize s) = Py.contains c s.
Proof.
  intros Hu Hl. destruct s as [|a s]; [done|]. simpl.
  rewrite contains_lower by done. f_equal.
  apply bool_decide_ext. by apply upper_char_not_letter.
Qed.

Lemma lower_lower s : Py.lower (Py.lower s) = Py.lower s.
Proof.
  induction s as [|c s IH]; [done|]. simpl. rewrite IH.
  by destruct (char_case_facts c) as (_ & _ & -> & _).
Qed.

Lemma rstrip_lower s : Py.rstrip (Py.lower s) = Py.lower (Py.rstrip s).
Proof.
  induction s as [|c s IH]; [done|]. simpl. rewrite IH.
  destruct (char_case_facts c) as (-> & _).
  destruct (Py.rstrip s); simpl; [|done]. by destruct (Py.is_space c).
Qed.

Lemma rstrip_head c s :
  Py.is_space c = false → Py.rstrip (String c s) = String c (Py.rstrip s).
Proof. intros Hc. simpl. rewrite Hc. by destruct (Py.rstrip s). Qed.

Lemma lstrip_head s :
  Py.lstrip s = ""
  ∨ ∃ c s', Py.lstrip s = String c s' ∧ Py.is_space c = false.
Proof.
  induction s as [|c s IH]; [by left|]. simpl.
  destruct (Py.is_space c) eqn:Hc; [done|]. right. eauto.
Qed.

Lemma rstrip_rstrip s : Py.rstrip (Py.rstrip s) = Py.rstrip s.
Proof.
  induction s as [|c s IH]; [done|]. simpl.
  destruct (Py.rstrip s) as [|d r] eqn:Hr.
  - destruct (Py.is_space c) eqn:Hc; [done|]. simpl. by rewrite Hc.
  - by rewrite rstrip_cons; rewrite IH.
Qed.

(** A stripped string has no blank at either end. *)
Lemma strip_tidy s :
  Py.lstrip (Py.strip s) = Py.strip s ∧ Py.rstrip (Py.strip s) = Py.strip s.
Proof.
  unfold Py.strip. split; [|apply rstrip_rstrip].
  destruct (lstrip_head s) as [->|(c & s' & -> & Hc)]; [done|].
  rewrite rstrip_head by done. by apply lstrip_cons.
Qed.

Lemma contains_lstrip c s :
  Py.contains c s = false → Py.contains c (Py.lstrip s) = false.
Proof.
  induction s as [|a s IH]; [done|]. simpl.
  intros [Ha Hs]%orb_false_elim. destruct (Py.is_space a); [by apply IH|].
  simpl. by rewrite Ha, Hs.
Qed.

Lemma contains_rstrip c s :
  Py.contains c s = false → Py.contains c (Py.rstrip s) = false.
Proof.
  induction s as [|a s IH]; [done|]. simpl.
  intros [Ha Hs]%orb_false_elim. specialize (IH Hs).
  destruct (Py.rstrip s).
  - destruct (Py.is_space a); [done|]. simpl. by rewrite Ha.
  - simpl in *. by rewrite Ha, IH.
Qed.

Lemma contains_strip c s :
  Py.contains c s = false → Py.contains c (Py.strip s) = false.
Proof. intros H. by apply contains_rstrip, contains_lstrip. Qed.

Lemma split_pieces sep s e :
  e ∈ Py.split sep s →
  Py.contains sep e = false
  ∧ ∀ c, Py.contains c s = false → Py.contains c e = false.
Proof.
  revert e. induction s as [|a s IH]; intros e; simpl.
  - by intros ->%list_elem_of_singleton.
  - case_bool_decide as Ha.
    + intros [->|He]%elem_of_cons; [done|].
      destruct (IH e He) as [H1 H2]. split; [done|].
      intros c [_ Hc]%orb_false_elim. by apply H2.
    + destruct (Py.split sep s) as [|h t] eqn:Hs.
      * intros ->%list_elem_of_singleton. simpl.
        rewrite bool_decide_eq_false_2 by done. split; [done|].
        by intros c [-> _]%orb_false_elim.
      * intros [->|He]%elem_of_cons.
        -- destruct (IH h ltac:(left)) as [H1 H2]. simpl.
           rewrite bool_decide_eq_false_2 by done. split; [done|].
           intros c [-> Hc]%orb_false_elim. by apply H2.
        -- destruct (IH e ltac:(by right)) as [H1 H2]. split; [done|].
           intros c [_ Hc]%orb_false_elim. by apply H2.
Qed.

Lemma split1_inv sep s a b :
  Py.split1 sep s = [a; b] → s = a +:+ String sep b.
Proof.
  revert a. induction s as [|c s IH]; intros a; simpl; [done|].
  case_bool_decide as Hc.
  - intros [= <- <-]. by subst.
  - destruct (Py.split1 sep s) as [|h [|h' [|]]]; try done.
    intros [= <- <-]. by rewrite (IH h eq_refl).
Qed.

Lemma capitalize_stored e :
  e ≠ "" → Py.lstrip e = e → Py.rstrip e = e →
  Py.contains "," e = false → no_break e →
  stored_name (Py.capitalize e).
Proof.
  intros Hne Hl Hr Hc [Hlf Hcr].
  destruct (lstrip_fix_nonempty e Hne Hl) as (c & s & -> & Hsp).
  destruct (char_case_facts c) as (_ & Hup & _ & Hupup).
  assert (Py.rstrip (Py.lower s) = Py.lower s) as Hrl.
  { rewrite rstrip_head in Hr by done. injection Hr as Hr.
    by rewrite rstrip_lower, Hr. }
  unfold stored_name. rewrite !contains_capitalize by done.
  split_and!; try done.
  - apply lstrip_cons. by rewrite Hup.
  - cbn [Py.capitalize]. rewrite rstrip_head by (by rewrite Hup). by rewrite Hrl.
  - cbn [Py.capitalize]. by rewrite Hupup, lower_lower.
Qed.

Lemma event_names_stored rhs :
  no_break rhs → Forall stored_name (event_names rhs).
Proof.
  intros [Hlf Hcr]. unfold event_names.
  apply Forall_fmap, Forall_forall. intros e [Hne He]%list_elem_of_filter.
  destruct (split_pieces _ _ _ He) as [Hc Hsub]. simpl.
  destruct (strip_tidy e) as [Hl Hr].
  apply capitalize_stored; try done.
  - by apply contains_strip.
  - split; apply contains_strip; by apply Hsub.
Qed.

Lemma stored_events_empty : stored_events ∅.
Proof. intros tile evs Hl. by rewrite lookup_empty in Hl. Qed.

Lemma parse_line_stored parsed mode ln parsed' mode' :
  no_break ln → stored_events (events parsed) →
  parse_line (parsed, mode) ln = Ok (parsed', mode') →
  stored_events (events parsed').
Proof.
  intros Hln Hd E.
  destruct (parse_line_inv _ _ _ _ _ E)
    as (_ & _ & [->|(lhs & rhs & t & Hs & _ & Hne & ->)]); [done|].
  assert (no_break rhs) as Hrhs.
  { apply split1_inv in Hs. subst ln. destruct Hln as [H1 H2].
    rewrite contains_app in H1, H2.
    apply orb_false_elim in H1 as [_ [_ H1]%orb_false_elim].
    apply orb_false_elim in H2 as [_ [_ H2]%orb_false_elim]. done. }
  intros tile evs. rewrite lookup_extend_at. case_decide as Ht.
  - intros [= <-]. split.
    + intros [_ ?]%app_eq_nil. done.
    + apply Forall_app. split; [|by apply event_names_stored].
      destruct (events parsed !! t) as [old|] eqn:Hold; [|done].
      by destruct (Hd t old Hold).
  - apply Hd.
Qed.

Lemma parse_lines_stored lines : ∀ acc acc',
  Forall no_break lines → stored_events (events acc.1) →
  parse_lines acc lines = Ok acc' → stored_events (events acc'.1).
Proof.
  induction lines as [|ln lines IH]; intros [parsed mode] acc' Hl Hd; simpl.
  - by intros [= <-].
  - apply Forall_cons in Hl as [Hln Hl].
    destruct (parse_line_ok (parsed, mode) ln) as [[p1 m1] E]. rewrite E. simpl.
    apply IH; [done|]. by eapply parse_line_stored.
Qed.

(** The lines that [readlines] gives have no line break before their
    terminator. *)
Lemma readlines_lines n : ∀ s, (String.length s ≤ n)%nat →
  Forall (λ l, ∃ body, no_break body
                       ∧ (l = body ∨ l = body +:+ String Py.LF ""))
    (Py.readlines s).
Proof.
  induction n as [|n IH]; intros [|c s] Hlen; simpl in *;
    try (by constructor); try lia.
  assert (∀ t, (String.length t ≤ n)%nat →
     Forall (λ l, ∃ body, no_break body
                          ∧ (l = body ∨ l = body +:+ String Py.LF ""))
       (String Py.LF "" :: Py.readlines t)) as Hbreak.
  { intros t Ht. apply Forall_cons_2; [|by apply IH].
    exists "". split; [done|]. by right. }
  case_bool_decide as Hlf; [apply Hbreak; lia|].
  case_bool_decide as Hcr.
  { destruct s as [|c' s]; [apply (Hbreak ""); simpl; lia|].
    simpl in Hlen. case_bool_decide; apply Hbreak; simpl; lia. }
  pose proof (IH s ltac:(lia)) as Hs.
  destruct (Py.readlines s) as [|l ls].
  - apply Forall_cons_2; [|done]. exists (String c ""). split; [|by left].
    split; simpl; by rewrite bool_decide_eq_false_2.
  - apply Forall_cons in Hs as [(body & [H1 H2] & Hl) Hls].
    apply Forall_cons_2; [|done]. exists (String c body). split.
    + split; simpl; by rewrite bool_decide_eq_false_2.
    + destruct Hl as [->| ->]; [by left|by right].
Qed.

Lemma stripped_lines_no_break text :
  Forall no_break (Py.strip <$> Py.readlines text).
Proof.
  apply Forall_fmap.
  eapply Forall_impl; [by apply (readlines_lines (String.length text))|].
  intros l (body & [H1 H2] & [->| ->]); simpl.
  - split; by apply contains_strip.
  - rewrite strip_line. split; by apply contains_strip.
Qed.

(** Every state that [parse_game_file] returns meets the conditions under
    which its text parses back to it. *)
Lemma parse_game_file_stored file s :
  parse_game_file file = Ok s →
  in_range s ∧ winner s = crowned (positions s) ∧ stored_events (events s).
Proof.
  intros Hp. split; [by eapply parse_game_file_in_range|].
  destruct file as [|e|text]; unfold parse_game_file in Hp;
    [injection Hp as <-; split; [done|]; apply stored_events_empty|done|].
  - destruct (parse_lines_ok (Py.strip <$> Py.readlines text)
                (default_state, NoMode)) as [[parsed mode] E].
    rewrite E in Hp.
    assert (s = foldl crown_player
                  (foldl clamp_player parsed [Player1; Player2])
                  [Player1; Player2]) as -> by (by injection Hp as <-).
    clear Hp.
    pose proof (parse_lines_winner _ _ _ E) as Hw.
    pose proof (parse_lines_stored _ (default_state, NoMode) _
                  (stripped_lines_no_break text) stored_events_empty E) as Hd.
    destruct (finish_positions parsed Hw) as (Hpos & Hwin & He & _).
    cbv zeta in Hpos, Hwin, He. split.
    + rewrite Hwin. unfold crowned.
      change (player2 ?ps) with (get_pos ps Player2).
      change (player1 ?ps) with (get_pos ps Player1).
      rewrite !Hpos. unfold clamp, LAST_TILE.
      repeat case_match; try done; lia.
    + by rewrite He.
Qed.

(** ** The states of a run *)

Lemma handle_roll_game w die :
  game (handle_roll w die).1
  = match winner (game w) with
    | Some _ => game w
    | None =>
        let s := (attempt_move (game w) (turn (game w)) die).1 in
        if winner s is None then switch_turn s else s
    end.
Proof.
  unfold handle_roll. destruct (winner (game w)); [done|].
  destruct (attempt_move _ _ _) as [s r]. simpl.
  unfold save_game_state. simpl. by destruct (writable w).
Qed.

Lemma handle_save_game w : game (handle_save w).1 = game w.
Proof.
  unfold handle_save, save_game_state. by destruct (writable w).
Qed.

Lemma load_game_state_game w w' :
  load_game_state w = Ok w' → parse_game_file (disk w) = Ok (game w').
Proof.
  unfold load_game_state.
  destruct (parse_game_file (disk w)) as [[t ps e wn]|]; simpl; [|done].
  by intros [= <-].
Qed.

(** The states of a run are reachable states. *)
Lemma running_reachable w : running w → reachable (game w).
Proof.
  induction 1 as [w0 w _ Hl|w die _ IH _|w _ IH|w w' _ _ Hl|w file b _ IH].
  - eapply reach_load. by apply load_game_state_game.
  - rewrite handle_roll_game. destruct (winner (game w)); [done|].
    cbv zeta. case_match.
    + by apply reach_attempt_move.
    + by apply reach_switch_turn, reach_attempt_move.
  - by rewrite handle_save_game.
  - eapply reach_load. by apply load_game_state_game.
  - done.
Qed.

Lemma crowned_set_pos ps p v :
  crowned ps = None → v ≤ LAST_TILE →
  crowned (set_pos ps p v) = if LAST_TILE <=? v then Some p else None.
Proof.
  unfold crowned. destruct ps as [p1 p2]. simpl.
  destruct (Z.leb_spec LAST_TILE p2); [done|].
  destruct (Z.leb_spec LAST_TILE p1); [done|]. intros _ Hv.
  destruct p; simpl; repeat case_match; try done; lia.
Qed.

(** A move keeps the winner in line with the positions. *)
Lemma attempt_move_crowned s player steps :
  winner s = crowned (positions s) →
  winner (attempt_move s player steps).1
  = crowned (positions (attempt_move s player steps).1).
Proof.
  intros Hw. unfold attempt_move.
  destruct (winner s) as [w|] eqn:Hws; [simpl; congruence|].
  set (new_pos := Z.min (get_pos (positions s) player + steps) LAST_TILE).
  destruct (Z.leb_spec LAST_TILE new_pos) as [Hge|Hlt].
  - simpl. rewrite crowned_set_pos by (done || lia).
    by rewrite (proj2 (Z.leb_le _ _) Hge).
  - rewrite apply_events_eq. simpl.
    rewrite get_set_pos_eq.
    set (final := clamp _).
    assert (final ≤ LAST_TILE) by (unfold final, clamp, LAST_TILE; lia).
    assert (crowned (set_pos (set_pos (positions s) player new_pos)
                       player final)
            = if LAST_TILE <=? final then Some player else None) as Hc.
    { replace (set_pos (set_pos (positions s) player new_pos) player final)
        with (set_pos (positions s) player final) by (by destruct player).
      by apply crowned_set_pos. }
    destruct (LAST_TILE <=? final); simpl; by rewrite Hc.
Qed.

Lemma attempt_move_events s player steps :
  events (attempt_move s player steps).1 = events s.
Proof.
  unfold attempt_move. destruct (winner s); [done|].
  case_match; [done|]. rewrite apply_events_eq. simpl. by case_match.
Qed.

(** In a run the game is always in the form that the game file can hold. *)
Lemma running_stored w :
  running w →
  in_range (game w) ∧ winner (game w) = crowned (positions (game w))
  ∧ stored_events (events (game w)).
Proof.
  induction 1 as [w0 w _ Hl|w die _ IH _|w _ IH|w w' _ _ Hl|w file b _ IH].
  - eapply parse_game_file_stored. by apply load_game_state_game.
  - rewrite handle_roll_game. destruct IH as (Hr & Hc & Hd).
    destruct (winner (game w)) eqn:Hw; [by rewrite Hw|].
    rewrite <- Hw in Hc. cbv zeta.
    pose proof (attempt_move_in_range _ (turn (game w)) die Hr) as Hr'.
    pose proof (attempt_move_crowned _ (turn (game w)) die Hc) as Hc'.
    pose proof (attempt_move_events (game w) (turn (game w)) die) as He.
    rewrite <- He in Hd. clear He.
    set (s' := (attempt_move (game w) (turn (game w)) die).1) in *.
    clearbody s'.
    destruct (winner s') eqn:Hw'; (split_and!; [done| |done]);
      simpl; congruence.
  - by rewrite handle_save_game.
  - eapply parse_game_file_stored. by apply load_game_state_game.
  - done.
Qed.

(** C5, as the code has it.  The text written for a state parses back to
    that state when both positions are on the board, the winner is the one
    the parser reads off the positions (Player2 at the last tile, else
    Player1 at the last tile, else nobody), and the events table is in the
    form the parser builds: no tile with an empty list, and names that are
    capitalised and have no comma, no line break and no blank at either
    end.  Every state that [parse_game_file] returns for an ASCII text or
    a missing file, and every state of a run of the server whose event
    names are ASCII, is of that kind, so writing it and parsing the text
    gives it back. *)
Theorem write_parse_round_trip :
  (∀ s, in_range s →
        winner s = crowned (positions s) →
        stored_events (events s) →
        parse_game_file (Text (write_game_file s)) = Ok s)
  ∧ (∀ file s, ascii_file file → parse_game_file file = Ok s →
               parse_game_file (Text (write_game_file s)) = Ok s)
  ∧ (∀ w, running w → ascii_events (events (game w)) →
          parse_game_file (Text (write_game_file (game w))) = Ok (game w)).
Proof.
  assert (∀ s, in_range s → winner s = crowned (positions s) →
               stored_events (events s) →
               parse_game_file (Text (write_game_file s)) = Ok s) as Hmain;
    [|split_and!; [done|..];
      [intros file s _ (Hr & Hw & Hd)%parse_game_file_stored
      |intros w (Hr & Hw & Hd)%running_stored _]; by apply Hmain].
  intros s [[H1 H1'] [H2 H2']] Hw Hd. unfold parse_game_file.
  rewrite write_game_file_lines.
  destruct (written_lines_tidy s Hd) as [Htidy Hlast].
  rewrite (strip_readlines_join _ Htidy Hlast). clear Htidy Hlast.
  unfold written_lines. rewrite parse_lines_app.
  rewrite (parse_lines_cons_ok _ _ _ _
             (parse_line_turn_written _ _ (turn s))).
  rewrite (parse_lines_cons_ok _ _ _ _
             (parse_line_player1_written _ _ _ H1)).
  rewrite (parse_lines_cons_ok _ _ _ _
             (parse_line_player2_written _ _ _ H2)).
  rewrite (parse_lines_cons_ok _ _ _ _ (parse_line_blank _ _)).
  rewrite (parse_lines_cons_ok _ _ _ _ (parse_line_events_written _ _)).
  cbn [parse_lines mbind result_bind].
  rewrite parse_lines_event_lines
    by (done || intros t; apply elem_of_sorted_tiles).
  cbn [events set_events set_position set_turn default_state].
  rewrite foldl_extend_at_sorted_tiles.
  destruct s as [t [p1 p2] d w]. simpl in *. subst w.
  unfold crowned, crown_player, clamp_player, LAST_TILE in *. simpl in *.
  rewrite !Z.max_r, !Z.min_r by lia.
  destruct (Z.leb_spec 100 p1); simpl;
    destruct (Z.leb_spec 100 p2);
    unfold set_position, set_winner, set_events, set_turn, set_pos;
    simpl; repeat f_equal; lia.
Qed.

Lemma write_parse_round_trip_witness :
  let s := {| turn := Player2;
              positions := {| player1 := 100; player2 := 37 |};
              events := {[ 12 := ["Treasure"; "Portal"]; -4 := ["Bog: x"] ]};
              winner := Some Player1 |} in
  parse_game_file (Text (write_game_file s)) = Ok s.
Proof.
  intros s. apply (proj1 write_parse_round_trip).
  - by vm_compute.
  - reflexivity.
  - intros tile evs Hl.
    destruct (decide (tile = 12)) as [->|]; [|destruct (decide (tile = -4)) as [->|]].
    + vm_compute in Hl. simplify_eq.
      split; [done|]. repeat constructor; by vm_compute.
    + vm_compute in Hl. simplify_eq.
      split; [done|]. repeat constructor; by vm_compute.
    + subst s. simpl in Hl.
      rewrite lookup_insert_ne, lookup_singleton_ne in Hl; done.
Defined.

(** C5, as stated, fails: a tile with an empty list is not written back as
    a tile, and a name that is not in stored form is normalised; with both
    players on the last tile the parser crowns Player2. *)
Lemma write_parse_round_trip_fails :
  parse_game_file
    (Text (write_game_file (set_events default_state {[ 5 := [] ]})))
  = Ok default_state
  ∧ parse_game_file
      (Text (write_game_file (set_events default_state {[ 5 := ["treasure"] ]})))
    = Ok (set_events default_state {[ 5 := ["Treasure"] ]})
  ∧ parse_game_file
      (Text (write_game_file
               {| turn := Player2;
                  positions := {| player1 := 100; player2 := 100 |};
                  events := ∅; winner := Some Player1 |}))
    = Ok {| turn := Player2;
            positions := {| player1 := 100; player2 := 100 |};
            events := ∅; winner := Some Player2 |}
  ∧ ¬ (∀ s, in_range s → winner s = crowned (positions s) →
            parse_game_file (Text (write_game_file s)) = Ok s).
Proof.
  split_and!; [reflexivity..|].
  intros H.
  specialize (H (set_events default_state {[ 5 := [] ]})
                ltac:(by vm_compute) eq_refl).
  assert (parse_game_file
            (Text (write_game_file (set_events default_state {[ 5 := [] ]})))
          = Ok default_state) as H' by reflexivity.
  rewrite H' in H.
  assert (events default_state !! 5
          = events (set_events default_state {[ 5 := [] ]}) !! 5) as Hl
    by congruence.
  by vm_compute in Hl.
Qed.

(** * Further properties of the handlers and the codec *)

(** ** Turns and rolls *)

(** X1. [switch_turn] hands the turn to the other player and touches nothing
    else; doing it twice gives the state back. *)
Theorem switch_turn_involutive s :
  switch_turn (switch_turn s) = s
  ∧ turn (switch_turn s) = opponent (turn s)
  ∧ positions (switch_turn s) = positions s
  ∧ events (switch_turn s) = events s
  ∧ winner (switch_turn s) = winner s.
Proof.
  destruct s as [t ps e w]. split_and!; try done.
  - unfold switch_turn, set_turn. by destruct t.
  - by destruct t.
Qed.

Lemma rolls_cons w d dice :
  rolls w (d :: dice)
  = ((rolls (handle_roll w d).1 dice).1,
     (handle_roll w d).2 :: (rolls (handle_roll w d).1 dice).2).
Proof.
  simpl. destruct (handle_roll w d) as [w1 r]. simpl.
  by destruct (rolls w1 dice).
Qed.

Lemma handle_roll_finished w p die :
  winner (game w) = Some p →
  handle_roll w die = (w, (GameAlreadyFinished p, 400)).
Proof. intros Hw. unfold handle_roll. by rewrite Hw. Qed.

(** X2. Once there is a winner, no series of rolls changes anything: the
    world, file included, stays as it is and every request is answered with
    the error that names the winner and status 400. *)
Theorem rolls_after_the_end w p dice :
  winner (game w) = Some p →
  rolls w dice = (w, (λ _, (GameAlreadyFinished p, 400)) <$> dice).
Proof.
  intros Hw. induction dice as [|d dice IH]; [done|].
  rewrite rolls_cons, (handle_roll_finished w p d Hw). simpl.
  by rewrite IH.
Qed.

Lemma rolls_after_the_end_witness :
  let w := {| game := {| turn := Player2;
                         positions := {| player1 := 100; player2 := 7 |};
                         events := ∅; winner := Some Player1 |};
              disk := Missing; writable := true |} in
  rolls w [3; 6] = (w, [(GameAlreadyFinished Player1, 400);
                         (GameAlreadyFinished Player1, 400)]).
Proof. intros w. by apply (rolls_after_the_end w Player1 [3; 6]). Defined.

Lemma handle_roll_live w die :
  winner (game w) = None →
  handle_roll w die
  = let '(s, result) := attempt_move (game w) (turn (game w)) die in
    let s := if winner s is None then switch_turn s else s in
    (try_except (save_game_state (set_game w s)) (set_game w s),
     (result, 200)).
Proof. intros Hw. unfold handle_roll. by rewrite Hw. Qed.

Lemma attempt_move_live s player steps :
  winner s = None →
  attempt_move s player steps =
  let start := get_pos (positions s) player in
  let moved := Z.min (start + steps) LAST_TILE in
  let evs := default [] (events s !! moved) in
  let final := if LAST_TILE <=? moved then moved
               else clamp (moved + sum_shifts evs) in
  let won := if LAST_TILE <=? final then Some player else None in
  (set_winner (set_position s player final) won,
   Moved {| mr_player := player; mr_rolled := steps; mr_start := start;
            mr_moved_to := moved;
            mr_events := if LAST_TILE <=? moved then []
                         else omap event_report evs;
            mr_final := final; mr_winner := won |}).
Proof.
  intros Hw. unfold attempt_move. rewrite Hw. cbv zeta.
  set (moved := Z.min (get_pos (positions s) player + steps) LAST_TILE).
  destruct (LAST_TILE <=? moved) eqn:Hm.
  - rewrite Hm. done.
  - rewrite apply_events_eq. cbv zeta. cbn [positions set_position events].
    rewrite get_set_pos_eq.
    set (final := clamp _).
    assert (set_position (set_position s player moved) player final
            = set_position s player final) as ->.
    { unfold set_position. simpl. by destruct player. }
    destruct s as [t ps e w]. simpl in Hw. subst w.
    destruct (LAST_TILE <=? final); done.
Qed.

Lemma handle_roll_snd w die :
  winner (game w) = None →
  (handle_roll w die).2
  = ((attempt_move (game w) (turn (game w)) die).2, 200).
Proof.
  intros Hw. rewrite (handle_roll_live w die Hw).
  by destruct (attempt_move _ _ _).
Qed.

(** X3. A roll on a game without a winner is answered with status 200 and
    the move of the player whose turn it was: the start is that player's old
    tile, the intermediate tile is the start plus the die capped at the last
    tile, and the final tile and the winner in the answer are the ones that
    [get_game_state] reports afterwards. *)
Theorem handle_roll_response w die :
  winner (game w) = None →
  ∃ r, (handle_roll w die).2 = (Moved r, 200)
       ∧ mr_player r = turn (game w)
       ∧ mr_rolled r = die
       ∧ mr_start r = get_pos (positions (game w)) (turn (game w))
       ∧ mr_moved_to r = Z.min (mr_start r + die) LAST_TILE
       ∧ mr_final r
         = get_pos (gv_positions (get_game_state (handle_roll w die).1))
             (turn (game w))
       ∧ mr_winner r = gv_winner (get_game_state (handle_roll w die).1).
Proof.
  intros Hw.
  pose proof (handle_roll_game w die) as Hg. rewrite Hw in Hg.
  pose proof (handle_roll_snd w die Hw) as Hr.
  pose proof (attempt_move_live _ (turn (game w)) die Hw) as Ha.
  cbv zeta in Ha, Hg.
  set (start := get_pos (positions (game w)) (turn (game w))) in *.
  set (moved := Z.min (start + die) LAST_TILE) in *.
  set (final := if LAST_TILE <=? moved then moved else _) in *.
  set (won := if LAST_TILE <=? final then _ else _) in *.
  rewrite Ha in Hg, Hr. cbn [fst snd winner set_winner] in Hg, Hr.
  eexists. split; [exact Hr|].
  cbn [mr_player mr_rolled mr_start mr_moved_to mr_final mr_winner].
  unfold get_game_state. cbn [gv_positions gv_winner]. rewrite Hg.
  split_and!; try done.
  - destruct won; cbn; by rewrite get_set_pos_eq.
  - by destruct won.
Qed.

Lemma handle_roll_response_witness :
  let w := {| game := {| turn := Player1;
                         positions := {| player1 := 88; player2 := 96 |};
                         events := {[ 93 := ["Portal"] ]}; winner := None |};
              disk := Missing; writable := false |} in
  ∃ r, (handle_roll w 5).2 = (Moved r, 200)
       ∧ mr_player r = Player1 ∧ mr_rolled r = 5 ∧ mr_start r = 88
       ∧ mr_moved_to r = 93 ∧ mr_final r = 90 ∧ mr_winner r = None.
Proof.
  intros w.
  destruct (handle_roll_response w 5 eq_refl)
    as (r & Hr & H1 & H2 & H3 & H4 & H5 & H6).
  exists r. split_and!; try done.
  - rewrite H4, H3. done.
Defined.

Lemma handle_roll_world w die :
  writable (handle_roll w die).1 = writable w
  ∧ (disk (handle_roll w die).1 = disk w
     ∨ (writable w = true ∧ winner (game w) = None
        ∧ disk (handle_roll w die).1
          = Text (write_game_file (game (handle_roll w die).1)))).
Proof.
  unfold handle_roll. destruct (winner (game w)); [by auto|].
  destruct (attempt_move _ _ _) as [s r]. unfold save_game_state.
  cbn [writable set_game]. destruct (writable w) eqn:Hwr; cbn; auto.
Qed.


(** X5. What a roll does to the game and what it answers depend on the game
    alone, not on the file: two worlds with the same game get the same new
    game and the same answer, and when the file cannot be written the
    failure is swallowed and the old file stays. *)
Theorem handle_roll_ignores_disk w1 w2 die :
  game w1 = game w2 →
  game (handle_roll w1 die).1 = game (handle_roll w2 die).1
  ∧ (handle_roll w1 die).2 = (handle_roll w2 die).2
  ∧ (writable w1 = false → disk (handle_roll w1 die).1 = disk w1).
Proof.
  intros Hg. split_and!.
  - by rewrite !handle_roll_game, Hg.
  - destruct (winner (game w1)) as [p|] eqn:Hw.
    + rewrite (handle_roll_finished w1 p die Hw).
      rewrite Hg in Hw. by rewrite (handle_roll_finished w2 p die Hw).
    + rewrite (handle_roll_snd w1 die Hw).
      rewrite Hg in Hw. by rewrite (handle_roll_snd w2 die Hw), Hg.
  - intros Hwr. destruct (handle_roll_world w1 die) as [_ [?|(? & _)]];
      [done|congruence].
Qed.

Lemma handle_roll_ignores_disk_witness :
  let s := {| turn := Player2; positions := {| player1 := 4; player2 := 9 |};
              events := {[ 12 := ["Treasure"] ]}; winner := None |} in
  let w1 := {| game := s; disk := Missing; writable := false |} in
  let w2 := {| game := s; disk := Text "Turn: Player1"; writable := true |} in
  game (handle_roll w1 3).1 = game (handle_roll w2 3).1
  ∧ (handle_roll w1 3).2 = (handle_roll w2 3).2
  ∧ (writable w1 = false → disk (handle_roll w1 3).1 = disk w1).
Proof. intros s w1 w2. by apply (handle_roll_ignores_disk w1 w2 3). Defined.

Lemma unreported_events evs :
  Forall (λ e, event_report e = None) evs →
  sum_shifts evs = 0 ∧ omap event_report evs = [].
Proof.
  induction 1 as [|e evs He _ [IH1 IH2]]; [done|].
  change (event_shift e + sum_shifts evs = 0
          ∧ omap event_report (e :: evs) = []).
  rewrite IH1. split; [|simpl; by rewrite He].
  unfold event_report, event_shift in *. by repeat case_bool_decide.
Qed.

(** X6. A move that stays short of the last tile and lands on a tile with no
    event, or only with names that are neither Treasure nor Portal, ends on
    the tile the die leads to: start plus steps, no event reported, no
    winner, nothing else changed. *)
Theorem attempt_move_plain_tile s player steps :
  winner s = None →
  0 ≤ get_pos (positions s) player + steps < LAST_TILE →
  Forall (λ e, event_report e = None)
    (default [] (events s !! (get_pos (positions s) player + steps))) →
  attempt_move s player steps =
    (set_position s player (get_pos (positions s) player + steps),
     Moved {| mr_player := player; mr_rolled := steps;
              mr_start := get_pos (positions s) player;
              mr_moved_to := get_pos (positions s) player + steps;
              mr_events := [];
              mr_final := get_pos (positions s) player + steps;
              mr_winner := None |}).
Proof.
  intros Hw Hr Hev. rewrite (attempt_move_live s player steps Hw). cbv zeta.
  rewrite Z.min_l by lia.
  destruct (unreported_events _ Hev) as [-> ->].
  rewrite (proj2 (Z.leb_gt _ _)) by lia.
  replace (clamp (get_pos (positions s) player + steps + 0))
    with (get_pos (positions s) player + steps)
    by (unfold clamp, LAST_TILE in *; lia).
  rewrite (proj2 (Z.leb_gt _ _)) by lia.
  destruct s as [t ps e w]. simpl in Hw. by subst w.
Qed.

Lemma attempt_move_plain_tile_witness :
  attempt_move
    {| turn := Player1; positions := {| player1 := 10; player2 := 0 |};
       events := {[ 14 := ["Bonus"]; 20 := ["Portal"] ]}; winner := None |}
    Player1 4
  = ({| turn := Player1; positions := {| player1 := 14; player2 := 0 |};
        events := {[ 14 := ["Bonus"]; 20 := ["Portal"] ]}; winner := None |},
     Moved {| mr_player := Player1; mr_rolled := 4; mr_start := 10;
              mr_moved_to := 14; mr_events := []; mr_final := 14;
              mr_winner := None |}).
Proof.
  exact (attempt_move_plain_tile
    {| turn := Player1; positions := {| player1 := 10; player2 := 0 |};
       events := {[ 14 := ["Bonus"]; 20 := ["Portal"] ]}; winner := None |}
    Player1 4 eq_refl ltac:(by vm_compute)
    ltac:(repeat constructor)).
Defined.

(** ** The course of a game *)

Lemma crowned_cases ps :
  0 ≤ player1 ps ≤ LAST_TILE → 0 ≤ player2 ps ≤ LAST_TILE →
  match crowned ps with
  | Some p => get_pos ps p = LAST_TILE
  | None => player1 ps < LAST_TILE ∧ player2 ps < LAST_TILE
  end.
Proof.
  unfold crowned. intros H1 H2.
  destruct (Z.leb_spec LAST_TILE (player2 ps)); [simpl; lia|].
  destruct (Z.leb_spec LAST_TILE (player1 ps)); [simpl; lia|]. done.
Qed.

(** X7. In a run of the server there is a winner exactly when a player
    stands on the last tile, and the winner is a player who stands there;
    while there is no winner both players are short of the last tile. *)
Theorem running_winner_on_last_tile w :
  running w →
  match winner (game w) with
  | Some p => get_pos (positions (game w)) p = LAST_TILE
  | None =>
      get_pos (positions (game w)) Player1 < LAST_TILE
      ∧ get_pos (positions (game w)) Player2 < LAST_TILE
  end.
Proof.
  intros ([H1 H2] & Hw & _)%running_stored. rewrite Hw.
  by apply crowned_cases.
Qed.

Lemma running_winner_on_last_tile_witness :
  let text := Py.join (String Py.LF "") ["Player1: 97"; "Player2: 99"] in
  let w0 := {| game := default_state; disk := Text text; writable := true |} in
  let w := {| game := {| turn := Player1;
                         positions := {| player1 := 97; player2 := 99 |};
                         events := ∅; winner := None |};
              disk := Text text; writable := true |} in
  get_pos (positions (game (handle_roll w 3).1)) Player1 = LAST_TILE.
Proof.
  intros text w0 w.
  exact (running_winner_on_last_tile (handle_roll w 3).1
           (run_roll w 3 (run_start w0 w eq_refl eq_refl)
              ltac:(by vm_compute))).
Defined.

Lemma rolls_finished w dice :
  winner (game w) ≠ None → (rolls w dice).1 = w.
Proof.
  intros Hw. destruct (winner (game w)) as [p|] eqn:Hp; [|done].
  induction dice as [|d dice IH]; [done|].
  by rewrite rolls_cons, (handle_roll_finished w p d Hp).
Qed.

Lemma sum_shifts_no_portal evs :
  Forall (λ e, Py.lower e ≠ "portal") evs → 0 ≤ sum_shifts evs.
Proof.
  induction 1 as [|e evs He _ IH]; [done|].
  change (0 ≤ event_shift e + sum_shifts evs).
  unfold event_shift. repeat case_bool_decide; try done; lia.
Qed.

(** One roll keeps the game well formed and, in a game without Portals,
    either ends it or moves the players forward by at least one tile in
    total. *)
Lemma handle_roll_progress w d :
  in_range (game w) → winner (game w) = crowned (positions (game w)) →
  no_portal (events (game w)) → 1 ≤ d →
  let w' := (handle_roll w d).1 in
  in_range (game w') ∧ winner (game w') = crowned (positions (game w'))
  ∧ no_portal (events (game w'))
  ∧ (winner (game w') ≠ None
     ∨ player1 (positions (game w)) + player2 (positions (game w)) + 1
       ≤ player1 (positions (game w')) + player2 (positions (game w'))).
Proof.
  intros Hr Hc Hn Hd. cbv zeta.
  pose proof (handle_roll_game w d) as Hg.
  destruct (winner (game w)) eqn:Hw.
  { rewrite Hg. split_and!; [done|by rewrite Hw|done|left; by rewrite Hw]. }
  cbv zeta in Hg.
  pose proof (attempt_move_in_range _ (turn (game w)) d Hr) as Hr'.
  pose proof (attempt_move_events (game w) (turn (game w)) d) as He'.
  rewrite <- Hw in Hc.
  pose proof (attempt_move_crowned _ (turn (game w)) d Hc) as Hc'.
  pose proof (attempt_move_live _ (turn (game w)) d Hw) as Ha.
  cbv zeta in Ha.
  set (start := get_pos (positions (game w)) (turn (game w))) in *.
  set (moved := Z.min (start + d) LAST_TILE) in *.
  set (evs := default [] (events (game w) !! moved)) in *.
  set (final := if LAST_TILE <=? moved then moved else _) in *.
  assert (0 ≤ sum_shifts evs) as Hs.
  { apply sum_shifts_no_portal. unfold evs.
    destruct (events (game w) !! moved) as [l|] eqn:Hl; [|done].
    by apply (Hn moved). }
  assert (LAST_TILE ≤ final ∨ start + 1 ≤ final) as Hfinal.
  { unfold final, moved, clamp, LAST_TILE in *.
    destruct (Z.leb_spec 100 (Z.min (start + d) 100)); lia. }
  assert (0 ≤ start ∧ 0 ≤ get_pos (positions (game w)) (opponent (turn (game w))))
    as [Hs0 Ho0].
  { destruct Hr as [[? ?] [? ?]]. unfold start. by destruct (turn (game w)). }
  destruct (attempt_move (game w) (turn (game w)) d) as [s r].
  injection Ha as -> _. cbn [fst] in *. clear r.
  rewrite Hg. clear Hg.
  destruct (Z.leb_spec LAST_TILE final) as [Hge|Hlt]; cbn [winner set_winner].
  - split_and!; try done. by left.
  - split_and!; try done.
    right. unfold switch_turn. cbn. unfold start in *.
    destruct (turn (game w)); cbn in *; lia.
Qed.

Lemma rolls_progress dice : ∀ w,
  in_range (game w) → winner (game w) = crowned (positions (game w)) →
  no_portal (events (game w)) → Forall die_value dice →
  let w' := (rolls w dice).1 in
  in_range (game w') ∧ winner (game w') = crowned (positions (game w'))
  ∧ (winner (game w') ≠ None
     ∨ player1 (positions (game w)) + player2 (positions (game w))
       + Z.of_nat (length dice)
       ≤ player1 (positions (game w')) + player2 (positions (game w'))).
Proof.
  induction dice as [|d dice IH]; intros w Hr Hc Hn Hd; cbv zeta.
  - simpl. split_and!; try done. right. lia.
  - apply Forall_cons in Hd as [[Hd1 _] Hd].
    rewrite rolls_cons. cbn [fst].
    destruct (handle_roll_progress w d Hr Hc Hn Hd1) as (Hr1 & Hc1 & Hn1 & Hp).
    destruct (IH _ Hr1 Hc1 Hn1 Hd) as (Hr' & Hc' & Hp'). cbv zeta in *.
    split_and!; try done.
    destruct Hp' as [?|Hp']; [by left|].
    destruct Hp as [Hp|Hp].
    + left. by rewrite (rolls_finished _ dice Hp).
    + right. rewrite length_cons, Nat2Z.inj_succ. lia.
Qed.

(** X8. A game whose events table has no Portal ends: starting from any
    well-formed state, after [2 * LAST_TILE - 1] rolls of a die, whatever
    the values from 1 to 6, there is a winner. *)
Theorem rolls_end_without_portal w dice :
  in_range (game w) → winner (game w) = crowned (positions (game w)) →
  no_portal (events (game w)) → Forall die_value dice →
  2 * LAST_TILE - 1 ≤ Z.of_nat (length dice) →
  winner (game (rolls w dice).1) ≠ None.
Proof.
  intros Hr Hc Hn Hd Hlen.
  destruct (rolls_progress dice w Hr Hc Hn Hd) as ([H1 H2] & Hc' & Hp).
  cbv zeta in *. destruct Hp as [?|Hp]; [done|].
  intros Hnone. rewrite Hnone in Hc'. symmetry in Hc'.
  pose proof (crowned_cases _ H1 H2) as Hlt. rewrite Hc' in Hlt.
  destruct Hr as [[? ?] [? ?]]. unfold LAST_TILE in *. simpl in *. lia.
Qed.

Lemma rolls_end_without_portal_witness :
  let w := {| game := {| turn := Player1;
                         positions := {| player1 := 0; player2 := 0 |};
                         events := {[ 5 := ["Treasure"] ]}; winner := None |};
              disk := Missing; writable := false |} in
  winner (game (rolls w (replicate 199 1)).1) ≠ None.
Proof.
  intros w. apply rolls_end_without_portal.
  - by vm_compute.
  - reflexivity.
  - intros tile evs Hl. destruct (decide (tile = 5)) as [->|Hne].
    + vm_compute in Hl. injection Hl as <-. repeat constructor. by vm_compute.
    + subst w. simpl in Hl. by rewrite lookup_singleton_ne in Hl.
  - apply Forall_replicate. by vm_compute.
  - by vm_compute.
Defined.

(** ** Saving and loading *)

(** The text written for a state parses to that state with the winner read
    off the positions, whatever winner the state carried. *)
Lemma parse_written s :
  in_range s → stored_events (events s) →
  parse_game_file (Text (write_game_file s))
  = Ok (set_winner s (crowned (positions s))).
Proof.
  intros [[H1 H1'] [H2 H2']] Hd. unfold parse_game_file.
  rewrite write_game_file_lines.
  destruct (written_lines_tidy s Hd) as [Htidy Hlast].
  rewrite (strip_readlines_join _ Htidy Hlast). clear Htidy Hlast.
  unfold written_lines. rewrite parse_lines_app.
  rewrite (parse_lines_cons_ok _ _ _ _
             (parse_line_turn_written _ _ (turn s))).
  rewrite (parse_lines_cons_ok _ _ _ _
             (parse_line_player1_written _ _ _ H1)).
  rewrite (parse_lines_cons_ok _ _ _ _
             (parse_line_player2_written _ _ _ H2)).
  rewrite (parse_lines_cons_ok _ _ _ _ (parse_line_blank _ _)).
  rewrite (parse_lines_cons_ok _ _ _ _ (parse_line_events_written _ _)).
  cbn [parse_lines mbind result_bind].
  rewrite parse_lines_event_lines
    by (done || intros t; apply elem_of_sorted_tiles).
  cbn [events set_events set_position set_turn default_state].
  rewrite foldl_extend_at_sorted_tiles.
  destruct s as [t [p1 p2] d w]. simpl in *.
  unfold crowned, crown_player, clamp_player, LAST_TILE in *. simpl in *.
  rewrite !Z.max_r, !Z.min_r by lia.
  destruct (Z.leb_spec 100 p1); simpl;
    destruct (Z.leb_spec 100 p2);
    unfold set_position, set_winner, set_events, set_turn, set_pos;
    simpl; repeat f_equal; lia.
Qed.

Lemma set_winner_same s : set_winner s (winner s) = s.
Proof. by destruct s. Qed.

Lemma load_game_state_fix w :
  parse_game_file (disk w) = Ok (game w) → load_game_state w = Ok w.
Proof.
  unfold load_game_state. intros ->. cbn.
  destruct w as [[t ps e wn] d b]. done.
Qed.


(** X9. The winner is not part of the file: states that differ only in the
    winner are written as the same text, and loading that text gives the
    state with the winner that the positions imply.  This holds for every
    state with both players on the board and an events table in the form
    the parser builds. *)
Theorem write_forgets_winner s win :
  in_range s → stored_events (events s) →
  write_game_file (set_winner s win) = write_game_file s
  ∧ parse_game_file (Text (write_game_file (set_winner s win)))
    = Ok (set_winner s (crowned (positions s))).
Proof.
  intros Hr Hd. split; [done|].
  change (write_game_file (set_winner s win)) with (write_game_file s).
  by apply parse_written.
Qed.

Lemma write_forgets_winner_witness :
  let s := {| turn := Player2;
              positions := {| player1 := 100; player2 := 12 |};
              events := ∅; winner := None |} in
  write_game_file (set_winner s (Some Player2)) = write_game_file s
  ∧ parse_game_file (Text (write_game_file (set_winner s (Some Player2))))
    = Ok (set_winner s (Some Player1)).
Proof.
  intros s.
  exact (write_forgets_winner s (Some Player2) ltac:(by vm_compute)
           stored_events_empty).
Defined.

(** X10. Two well-formed states that are written as the same text are the
    same state: the file determines the turn, both positions, the events
    table and the winner. *)
Theorem write_game_file_inj s1 s2 :
  in_range s1 → winner s1 = crowned (positions s1) →
  stored_events (events s1) →
  in_range s2 → winner s2 = crowned (positions s2) →
  stored_events (events s2) →
  write_game_file s1 = write_game_file s2 → s1 = s2.
Proof.
  intros Hr1 Hw1 Hd1 Hr2 Hw2 Hd2 Heq.
  pose proof (parse_written s1 Hr1 Hd1) as H1.
  pose proof (parse_written s2 Hr2 Hd2) as H2.
  rewrite <- Hw1, set_winner_same in H1.
  rewrite <- Hw2, set_winner_same in H2.
  rewrite Heq, H2 in H1. by injection H1.
Qed.

Lemma write_game_file_inj_witness :
  let s := {| turn := Player1; positions := {| player1 := 3; player2 := 8 |};
              events := ∅; winner := None |} in
  set_position (set_position s Player2 0) Player2 8 = s.
Proof.
  intros s.
  apply (write_game_file_inj (set_position (set_position s Player2 0) Player2 8) s);
    try reflexivity; try apply stored_events_empty; by vm_compute.
Defined.






(** X13. A reset does not look at the game in memory.  When the file is
    missing or read as a text it does not fail: the new game is what the
    file parses to (the default state when there is no file), the file
    itself is left alone, the new game has both players on the board and
    the winner its positions imply, and a second reset gives the same world
    again.  When the file cannot be opened or decoded the reset raises that
    exception, and this is the only way it fails. *)
Theorem handle_reset_from_disk w :
  ((∀ e, disk w ≠ Unreadable e) →
   ∃ w', handle_reset w = Ok w'
         ∧ parse_game_file (disk w) = Ok (game w')
         ∧ disk w' = disk w ∧ writable w' = writable w
         ∧ (disk w = Missing → game w' = default_state)
         ∧ in_range (game w')
         ∧ winner (game w') = crowned (positions (game w'))
         ∧ handle_reset w' = Ok w')
  ∧ (∀ e, handle_reset w = Raise e ↔ disk w = Unreadable e).
Proof.
  unfold handle_reset. split.
  - intros Hf. destruct (parse_game_file_ok (disk w) Hf) as [s Hs].
    exists {| game := s; disk := disk w; writable := writable w |}.
    assert (load_game_state w
            = Ok {| game := s; disk := disk w; writable := writable w |}) as Hl.
    { unfold load_game_state. rewrite Hs. cbn. by destruct s. }
    destruct (parse_game_file_stored _ _ Hs) as (Hr & Hw & _).
    split_and!; [done..| |done|done|].
    + intros Hn. rewrite Hn in Hs. by injection Hs.
    + by apply load_game_state_fix.
  - intros e. unfold load_game_state. split.
    + destruct (parse_game_file (disk w)) as [s|e'] eqn:Hp; [done|].
      intros [= ->]. by apply parse_game_file_raise.
    + by intros ->.
Qed.

Lemma handle_reset_from_disk_witness :
  let w := {| game := {| turn := Player2;
                         positions := {| player1 := 40; player2 := 41 |};
                         events := ∅; winner := None |};
              disk := Missing; writable := true |} in
  handle_reset w
  = Ok {| game := default_state; disk := Missing; writable := true |}
  ∧ handle_reset {| game := game w; disk := Unreadable OSError;
                    writable := true |} = Raise OSError.
Proof.
  intros w. split.
  - destruct (proj1 (handle_reset_from_disk w) ltac:(done))
      as (w' & Hr & _ & Hd & Hwr & Hg & _).
    rewrite Hr. f_equal. destruct w' as [g d b]. simpl in *.
    by rewrite (Hg eq_refl), Hd, Hwr.
  - by apply (proj2 (handle_reset_from_disk
                {| game := game w; disk := Unreadable OSError;
                   writable := true |}) OSError).
Defined.

(** ** More on the parser and the writer *)

Lemma parse_line_skipped acc ln : skipped ln = true → parse_line acc ln = Ok acc.
Proof.
  unfold skipped, parse_line. destruct acc as [parsed mode]. by intros ->.
Qed.

(** X14. Blank lines and lines that start with [#] do not count, wherever
    they stand: leaving them out of the lines of a file gives the same
    result, from any point of the parse. *)
Theorem parse_lines_skips_comments lines : ∀ acc,
  parse_lines acc (filter (λ ln, skipped ln = false) lines)
  = parse_lines acc lines.
Proof.
  induction lines as [|ln lines IH]; intros acc; [done|].
  rewrite filter_cons. destruct (skipped ln) eqn:Hs.
  - rewrite decide_False by done. rewrite IH. simpl.
    by rewrite (parse_line_skipped acc ln Hs).
  - rewrite decide_True by done. simpl.
    destruct (parse_line acc ln); simpl; [apply IH|done].
Qed.

Lemma parse_line_no_mode parsed ln :
  is_header ln = false → parse_line (parsed, NoMode) ln = Ok (parsed, NoMode).
Proof.
  unfold is_header. intros Hh.
  apply orb_false_elim in Hh as [Hh He].
  apply orb_false_elim in Hh as [Hh H2].
  apply orb_false_elim in Hh as [Ht H1].
  unfold parse_line. rewrite Ht, H1, H2, He. by destruct (_ || _).
Qed.

(** X15. Before an [Events:] line only the key lines count: lines that do
    not start with one of the four keys, tile lines among them, are dropped
    without a trace, so a text without any key line parses to the default
    state. *)
Theorem parse_lines_before_events :
  (∀ parsed lines,
     Forall (λ ln, is_header ln = false) lines →
     parse_lines (parsed, NoMode) lines = Ok (parsed, NoMode))
  ∧ (∀ text,
       Forall (λ ln, is_header ln = false) (Py.strip <$> Py.readlines text) →
       parse_game_file (Text text) = Ok default_state).
Proof.
  assert (∀ parsed lines,
     Forall (λ ln, is_header ln = false) lines →
     parse_lines (parsed, NoMode) lines = Ok (parsed, NoMode)) as Hlines.
  { intros parsed lines. induction 1 as [|ln lines Hln _ IH]; [done|].
    simpl. by rewrite (parse_line_no_mode parsed ln Hln). }
  split; [done|]. intros text Hl. unfold parse_game_file.
  by rewrite (Hlines default_state _ Hl).
Qed.

Lemma parse_lines_before_events_witness :
  parse_game_file
    (Text (Py.join (String Py.LF "") ["12: Treasure"; "20: Portal, Treasure"]))
  = Ok default_state.
Proof.
  apply (proj2 parse_lines_before_events).
  change (Forall (λ ln, is_header ln = false)
            ["12: Treasure"; "20: Portal, Treasure"]).
  repeat (apply Forall_cons_2; [reflexivity|]). apply Forall_nil_2.
Defined.

Lemma extend_at_twice tile evs1 evs2 (d : gmap Z (list string)) :
  extend_at tile evs2 (extend_at tile evs1 d) = extend_at tile (evs1 ++ evs2) d.
Proof.
  unfold extend_at. rewrite lookup_insert_eq. cbn.
  by rewrite insert_insert_eq, (assoc_L (++)).
Qed.

(** X16. Tile lines for the same tile add up: after two lines for one tile,
    read in events mode, the tile holds what it held before, then the names
    of the first line, then the names of the second, and no other tile has
    changed. *)
Theorem tile_lines_accumulate parsed ln1 ln2 lhs1 rhs1 lhs2 rhs2 tile :
  skipped ln1 = false → is_header ln1 = false →
  Py.split1 ":" ln1 = [lhs1; rhs1] → Py.int (Py.strip lhs1) = Ok tile →
  event_names rhs1 ≠ [] →
  skipped ln2 = false → is_header ln2 = false →
  Py.split1 ":" ln2 = [lhs2; rhs2] → Py.int (Py.strip lhs2) = Ok tile →
  event_names rhs2 ≠ [] →
  ∃ parsed',
    parse_lines (parsed, EventsMode) [ln1; ln2] = Ok (parsed', EventsMode)
    ∧ events parsed' !! tile
      = Some (default [] (events parsed !! tile)
              ++ event_names rhs1 ++ event_names rhs2)
    ∧ (∀ t, t ≠ tile → events parsed' !! t = events parsed !! t)
    ∧ turn parsed' = turn parsed ∧ positions parsed' = positions parsed.
Proof.
  intros Hs1 Hh1 Hp1 Hi1 Hn1 Hs2 Hh2 Hp2 Hi2 Hn2.
  eexists. split.
  - cbn [parse_lines].
    rewrite (parse_line_tile _ _ _ _ _ Hs1 Hh1 Hp1 Hi1).
    rewrite bool_decide_eq_true_2 by done. cbn [mbind result_bind].
    rewrite (parse_line_tile _ _ _ _ _ Hs2 Hh2 Hp2 Hi2).
    rewrite bool_decide_eq_true_2 by done. cbn [mbind result_bind].
    reflexivity.
  - cbn [events set_events turn positions]. rewrite extend_at_twice.
    split_and!; try done.
    + rewrite lookup_extend_at. by rewrite decide_True.
    + intros t Ht. rewrite lookup_extend_at. by rewrite decide_False.
Qed.

Lemma tile_lines_accumulate_witness :
  ∃ parsed',
    parse_lines (set_events default_state {[ 12 := ["Portal"] ]}, EventsMode)
      ["12: treasure"; "12 : x , PORTAL"] = Ok (parsed', EventsMode)
    ∧ events parsed' !! 12 = Some ["Portal"; "Treasure"; "X"; "Portal"].
Proof.
  destruct (tile_lines_accumulate
              (set_events default_state {[ 12 := ["Portal"] ]})
              "12: treasure" "12 : x , PORTAL"
              "12" " treasure" "12 " " x , PORTAL" 12)
    as (parsed' & Hp & Hl & _); try reflexivity; try (by vm_compute).
  exists parsed'. split; [done|]. rewrite Hl. reflexivity.
Defined.

Lemma upper_lower_char c : Py.upper_char (Py.lower_char c) = Py.upper_char c.
Proof. destruct c as [[] [] [] [] [] [] [] []]; by vm_compute. Qed.

Lemma capitalize_lower s : Py.capitalize (Py.lower s) = Py.capitalize s.
Proof.
  destruct s as [|c s]; [done|]. simpl.
  by rewrite upper_lower_char, lower_lower.
Qed.

(** X17. Every event name that [parse_game_file] stores from an ASCII text
    is in normal form: not empty, equal to its own [strip()] and
    [capitalize()], free of commas; and a name that [apply_events] would
    take for a Treasure or a Portal is stored with exactly that spelling. *)
Theorem parsed_names_normal text s tile evs e :
  ascii_text text →
  parse_game_file (Text text) = Ok s →
  events s !! tile = Some evs → e ∈ evs →
  e ≠ "" ∧ Py.strip e = e ∧ Py.capitalize e = e
  ∧ Py.contains "," e = false
  ∧ (Py.lower e = "treasure" → e = "Treasure")
  ∧ (Py.lower e = "portal" → e = "Portal").
Proof.
  intros _ (_ & _ & Hd)%parse_game_file_stored Hl He.
  destruct (Hd tile evs Hl) as [_ Hevs].
  rewrite Forall_forall in Hevs.
  destruct (Hevs e He) as (Hne & Hls & Hrs & Hcap & Hc & _).
  split_and!; try done.
  - by apply strip_fix.
  - intros Hlow. by rewrite <- Hcap, <- capitalize_lower, Hlow.
  - intros Hlow. by rewrite <- Hcap, <- capitalize_lower, Hlow.
Qed.

Lemma parsed_names_normal_witness :
  let text := Py.join (String Py.LF "") ["Events:"; "4:  tREASURE ,, bonus"] in
  "Treasure" ≠ "" ∧ Py.strip "Treasure" = "Treasure"
  ∧ Py.capitalize "Treasure" = "Treasure"
  ∧ Py.contains "," "Treasure" = false
  ∧ (Py.lower "Treasure" = "treasure" → "Treasure" = "Treasure")
  ∧ (Py.lower "Treasure" = "portal" → "Treasure" = "Portal").
Proof.
  intros text.
  apply (parsed_names_normal text
           (set_events default_state {[ 4 := ["Treasure"; "Bonus"] ]})
           4 ["Treasure"; "Bonus"] "Treasure").
  - by vm_compute.
  - reflexivity.
  - reflexivity.
  - by left.
Defined.

Lemma StronglySorted_lt_NoDup (l : list Z) :
  StronglySorted Z.le l → NoDup l → StronglySorted Z.lt l.
Proof.
  induction 1 as [|x l Hl IH Hx]; intros Hnd; [constructor|].
  apply NoDup_cons in Hnd as [Hnin Hnd]. constructor; [by apply IH|].
  rewrite Forall_forall in Hx |- *. intros y Hy.
  specialize (Hx y Hy). assert (x ≠ y) by (by intros ->). lia.
Qed.

(** X18. The written text is the five fixed lines followed by one line per
    tile of the events table, each tile once, in strictly ascending order
    of tile number. *)
Theorem write_game_file_tiles st :
  ∃ tiles,
    write_game_file st
    = Py.join (String Py.LF "")
        ([ "Turn: " +:+ player_name (turn st);
           "Player1: " +:+ Py.str (get_pos (positions st) Player1);
           "Player2: " +:+ Py.str (get_pos (positions st) Player2);
           ""; "Events:" ]
         ++ (event_line (events st) <$> tiles))
    ∧ StronglySorted Z.lt tiles
    ∧ ∀ t, t ∈ tiles ↔ is_Some (events st !! t).
Proof.
  exists (sorted_tiles (events st)). split_and!.
  - apply write_game_file_lines.
  - apply StronglySorted_lt_NoDup; [|apply NoDup_sorted_tiles].
    unfold sorted_tiles. apply (StronglySorted_merge_sort Z.le).
  - apply elem_of_sorted_tiles.
Qed.

Lemma game_state_eq a b :
  turn a = turn b →
  (∀ q, get_pos (positions a) q = get_pos (positions b) q) →
  events a = events b → winner a = winner b → a = b.
Proof.
  destruct a as [ta [a1 a2] ea wa], b as [tb [b1 b2] eb wb]. simpl.
  intros -> Hp -> ->. pose proof (Hp Player1) as H1.
  pose proof (Hp Player2) as H2. simpl in *. by subst.
Qed.

Lemma parse_single_line ln parsed mode :
  no_break ln → ln ≠ "" → Py.strip ln = ln →
  parse_line (default_state, NoMode) ln = Ok (parsed, mode) →
  parse_game_file (Text ln)
  = Ok (foldl crown_player (foldl clamp_player parsed [Player1; Player2])
          [Player1; Player2]).
Proof.
  intros Hb Hne Hs Hp. unfold parse_game_file.
  rewrite readlines_last by done. cbn [fmap list_fmap parse_lines].
  rewrite Hs, Hp. done.
Qed.

(** X19. A file that only gives one player's position, a number of at most
    4300 digits: the player is put on that tile clamped to the board, 0 for
    a negative number and the last tile for a number beyond it, and wins
    when the number is at or beyond the last tile; the other player stays
    on 0 and the turn with Player1. *)
Theorem parse_position_line p n :
  Z.abs n < 10 ^ 4300 →
  parse_game_file (Text (player_name p +:+ ": " +:+ Py.str n))
  = Ok {| turn := Player1;
          positions := set_pos {| player1 := 0; player2 := 0 |} p (clamp n);
          events := ∅;
          winner := if LAST_TILE <=? n then Some p else None |}.
Proof.
  intros _.
  destruct (str_facts n) as (Hne & Hl & Hr & _ & Hlf & Hcr & _).
  assert (parse_line (default_state, NoMode)
            (player_name p +:+ ": " +:+ Py.str n)
          = Ok (set_position default_state p (Z.max 0 n), NoMode)) as Hline.
  { destruct p; cbn [player_name].
    - change ("Player1" +:+ ": " +:+ Py.str n)
        with ("Player1" +:+ String ":" (String " " (Py.str n))).
      rewrite parse_line_player1 by done. by rewrite int_str_blank.
    - change ("Player2" +:+ ": " +:+ Py.str n)
        with ("Player2" +:+ String ":" (String " " (Py.str n))).
      rewrite parse_line_player2 by done. by rewrite int_str_blank. }
  erewrite parse_single_line; [|..|exact Hline].
  - f_equal.
    destruct (finish_positions (set_position default_state p (Z.max 0 n))
                eq_refl) as (Hpos & Hwin & He & Ht).
    cbv zeta in Hpos, Hwin, He, Ht.
    apply game_state_eq; cbn [turn positions events winner].
    + by rewrite Ht.
    + intros q. rewrite Hpos. unfold clamp, LAST_TILE.
      destruct p, q; cbn; lia.
    + by rewrite He.
    + rewrite Hwin. unfold LAST_TILE.
      destruct p; cbn;
        destruct (Z.leb_spec 100 (Z.max 0 n)), (Z.leb_spec 100 n);
        try done; lia.
  - destruct p; (apply no_break_app; [done|]); by apply (no_break_app ": ").
  - by destruct p.
  - apply strip_fix.
    + by destruct p.
    + apply rstrip_fix_app; [done|]. by apply (rstrip_fix_app ": ").
Qed.

Lemma parse_position_line_witness :
  parse_game_file (Text "Player2: -35")
  = Ok {| turn := Player1; positions := {| player1 := 0; player2 := 0 |};
          events := ∅; winner := None |}
  ∧ parse_game_file (Text "Player1: 250")
    = Ok {| turn := Player1; positions := {| player1 := 100; player2 := 0 |};
            events := ∅; winner := Some Player1 |}.
Proof.
  split.
  - exact (parse_position_line Player2 (-35) ltac:(by vm_compute)).
  - exact (parse_position_line Player1 250 ltac:(by vm_compute)).
Defined.
